(** * ExaConstit mechanics driver: a shallow embedding and its properties

    The development follows [miniapps/exaconstit/mechanics_driver.cpp]:
    the material-argument validator [checkMaterialArgs], the start-up part
    of [main], the constructor and [Solve] of [NonlinearMechOperator], the
    boundary functions, the pseudo-time loop and the grain loader
    [setGrainData].

    Conventions.  A C++ [int] is a [Z], a [bool] a [bool], a [double] a
    binary64 [float] (the kernel's primitive floats, so arithmetic rounds as
    the machine does), an mfem [Vector] a list of floats.  Text sent to a
    stream is recorded as an [event]; line breaks are not recorded.  A
    statement that leaves the normal control flow ([return] from [main],
    [MFEM_VERIFY] failing, a member access through a pointer that does not
    point to an object, an index outside an array, a remainder by zero) ends
    the computation with a [stop]; nothing after it is run.  The source
    checks neither its pointers nor its indices: for these two a [stop]
    marks the point from which the behaviour is undefined, not a check that
    the program makes. *)

From Stdlib Require Import ZArith List Bool String Lia.
From Stdlib Require Import Floats.
Import ListNotations.

#[local] Set Warnings "-inexact-float".
#[local] Open Scope string_scope.
#[local] Open Scope list_scope.
#[local] Open Scope Z_scope.

(* ------------------------------------------------------------------ *)
(** ** Outcomes, events and the program monad *)

Definition Vector := list float.

(** How control leaves the straight line. *)
Inductive stop : Type :=
| Returned (code : Z)          (* [return code;] from [main] *)
| Aborted (msg : string)       (* [MFEM_VERIFY] / [MFEM_ABORT] *)
| NullDereference              (* member access through a null pointer *)
| WildDereference              (* member access through a pointer never assigned *)
| OutOfBounds                  (* index outside the array it is applied to *)
| DivisionByZero.              (* [a % 0] on [int]s *)

Inductive outcome (A : Type) : Type :=
| Done (a : A)
| Stopped (s : stop).
Arguments Done {A} a.
Arguments Stopped {A} s.

Inductive event : Type :=
| Cout (s : string)
| Cerr (s : string)
| PrintUsage
| PrintOptions
| MPI_Finalize
| StepReport (ti : Z) (t : float)
| MeshSnapshot (myid ti : Z)
| DeformationSnapshot (myid ti : Z)
| NewtonMult (x : Vector).

(** A computation: what it sent out, and how it ended. *)
Definition prog (A : Type) : Type := list event * outcome A.

Definition ret {A} (a : A) : prog A := ([], Done a).
Definition halt {A} (s : stop) : prog A := ([], Stopped s).
Definition emit (e : event) : prog unit := ([e], Done tt).
Definition emit_if (b : bool) (e : event) : prog unit :=
  if b then emit e else ret tt.

Definition bind {A B} (m : prog A) (k : A -> prog B) : prog B :=
  match m with
  | (l, Done a) => let (l', r) := k a in (l ++ l', r)
  | (l, Stopped s) => (l, Stopped s)
  end.

Declare Scope prog_scope.
Delimit Scope prog_scope with prog.
Notation "x <- m ;; k" := (bind m (fun x => k))
  (at level 61, m at next level, right associativity) : prog_scope.
Notation "m ;;; k" := (bind m (fun _ => k))
  (at level 61, right associativity) : prog_scope.

(** A pointer variable of the source: never assigned, null, or pointing to
    the object it is meant for.  [through p] is a member access [p->...]. *)
Inductive pointer : Type := Wild | Null | Valid.

Definition through (p : pointer) : prog unit :=
  match p with
  | Valid => ret tt
  | Null => halt NullDereference
  | Wild => halt WildDereference
  end.

(* ------------------------------------------------------------------ *)
(** ** [checkMaterialArgs] (lines 758-814)

    The seven parameters are passed by value; the assignments in the body
    change the callee's copies, which the nested [let]s below shadow in the
    same order.  [run_checkMaterialArgs] keeps the copies as they are when
    the function returns, and what was printed. *)

Record ValidatorRun : Type := mkValidatorRun {
  vr_err : Z;
  vr_cout : list string;
  vr_umat : bool;
  vr_cp : bool;
  vr_grain_euler : bool;
  vr_grain_q : bool;
  vr_grain_uniform : bool
}.

Definition run_checkMaterialArgs
    (hyperelastic umat cp grain_euler grain_q grain_uniform : bool)
    (ngrains : Z) : ValidatorRun :=
  let err := 0 in
  let '(umat, cp, grain_euler, grain_q, grain_uniform, out) :=
    if hyperelastic
    then (false, false, false, false, false,
          ["Hyperelastic set to true; using Neohookean model"])
    else (umat, cp, grain_euler, grain_q, grain_uniform, []) in
  let '(grain_euler, grain_q, grain_uniform) :=
    if umat then (false, false, false)
    else (grain_euler, grain_q, grain_uniform) in
  let '(err, out) :=
    if cp && negb grain_euler && negb grain_q && negb grain_uniform
    then (1, out ++ ["Must specify grain data type for use with cp input arg."])
    else if cp && grain_euler && grain_q
    then (1, out ++ ["Cannot specify euler and quaternion grain data input args."])
    else if cp && grain_euler && grain_uniform
    then (1, out ++ ["Cannot specify euler and uniform grain data input args."])
    else if cp && grain_q && grain_uniform
    then (1, out ++ ["Cannot specify quaternion and uniform grain data input args."])
    else if cp && (ngrains <? 1)
    then (1, out ++ ["Specify number of grains for use with cp input arg."])
    else (err, out) in
  mkValidatorRun err out umat cp grain_euler grain_q grain_uniform.

Definition checkMaterialArgs
    (hyperelastic umat cp grain_euler grain_q grain_uniform : bool)
    (ngrains : Z) : Z :=
  vr_err (run_checkMaterialArgs hyperelastic umat cp grain_euler grain_q
            grain_uniform ngrains).

(** Exactly one of the three orientation representations is chosen. *)
Definition exactly_one (e q u : bool) : bool :=
  match e, q, u with
  | true, false, false | false, true, false | false, false, true => true
  | _, _, _ => false
  end.

(* ------------------------------------------------------------------ *)
(** ** Arrays and counted loops *)

(** [a[i]] on an [Array<T>], a [Vector] or a raw [T*] into them.  The
    source does not check [i]: inside the array the entry is read, outside
    it the behaviour is undefined, which [OutOfBounds] marks. *)
Definition index {A} (a : list A) (i : Z) : prog A :=
  if i <? 0 then halt OutOfBounds
  else match nth_error a (Z.to_nat i) with
       | Some v => ret v
       | None => halt OutOfBounds
       end.

Fixpoint replace_nth {A} (n : nat) (v : A) (a : list A) : list A :=
  match a, n with
  | [], _ => []
  | _ :: a', O => v :: a'
  | w :: a', S n' => w :: replace_nth n' v a'
  end.

(** [a[i] = v], unchecked like the read: [OutOfBounds] marks a write outside
    the array, from which the behaviour is undefined. *)
Definition assign {A} (a : list A) (i : Z) (v : A) : prog (list A) :=
  if (i <? 0) || (Z.of_nat (List.length a) <=? i) then halt OutOfBounds
  else ret (replace_nth (Z.to_nat i) v a).

(** [a = v]: every entry becomes [v], the size stays. *)
Definition assign_all {A} (a : list A) (v : A) : list A := map (fun _ => v) a.

(** The values [0, 1, ..., n-1] a loop [for (int i = 0; i < n; ++i)] takes. *)
Definition range (n : Z) : list Z := map Z.of_nat (seq 0 (Z.to_nat n)).

Fixpoint for_each {A S} (l : list A) (body : A -> S -> prog S) (s : S)
  : prog S :=
  match l with
  | [] => ret s
  | a :: l' => bind (body a s) (for_each l' body)
  end.

(* ------------------------------------------------------------------ *)
(** ** The start of [main] (lines 141-286) *)

(** The variables the option parser fills in. *)
Record Options : Type := mkOptions {
  mesh_file : string;
  grain_file : string;
  ngrains : Z;
  ser_ref_levels : Z;
  par_ref_levels : Z;
  order : Z;
  t_final : float;
  dt : float;
  visualization : bool;
  gmres_solver : bool;
  slu_solver : bool;
  vis_steps : Z;
  cubit : bool;
  newton_rel_tol : float;
  newton_abs_tol : float;
  newton_iter : Z;
  hyperelastic : bool;
  umat : bool;
  cp : bool;
  grain_euler : bool;
  grain_q : bool;
  grain_uniform : bool;
  grain_uni_vec : Vector
}.

(** Their initial values (lines 141-166). *)
Definition default_options : Options :=
  {| mesh_file := "../../data/beam-hex.mesh";
     grain_file := "grains.txt";
     ngrains := 0;
     ser_ref_levels := 0;
     par_ref_levels := 0;
     order := 1;
     t_final := 300.0%float;
     dt := 3.0%float;
     visualization := true;
     gmres_solver := true;
     slu_solver := false;
     vis_steps := 1;
     cubit := false;
     newton_rel_tol := 1.0e-12%float;
     newton_abs_tol := 1.0e-12%float;
     newton_iter := 500;
     hyperelastic := false;
     umat := false;
     cp := false;
     grain_euler := false;
     grain_q := false;
     grain_uniform := false;
     grain_uni_vec := [] |}.

(** What a run is given besides the parsed options: its MPI rank, whether
    the command line parsed ([args.Good()]), and which files open. *)
Record World : Type := mkWorld {
  myid : Z;
  args_good : bool;
  opens : string -> bool
}.

(** Lines 223-236. *)
Definition parse_check (w : World) : prog unit :=
  if negb (args_good w)
  then (emit_if (myid w =? 0) PrintUsage ;;;
        emit MPI_Finalize ;;;
        halt (Returned 1))%prog
  else emit_if (myid w =? 0) PrintOptions.

(** Lines 238-243: the call passes copies of the seven variables; [err] is
    the only variable of [main] the statement assigns. *)
Definition check_material (w : World) (o : Options) : prog (Z * Options) :=
  let r := run_checkMaterialArgs (hyperelastic o) (umat o) (cp o)
             (grain_euler o) (grain_q o) (grain_uniform o) (ngrains o) in
  let err := vr_err r in
  (for_each (vr_cout r) (fun s _ => emit (Cout s)) tt ;;;
   emit_if ((err =? 1) && (myid w =? 0))
     (Cerr "Inconsistent material input; check args") ;;;
   ret (err, o))%prog.

(** Modelled from the spec: the constructor [Mesh(mesh_file, 1, 1)] of the
    library, used on the [cubit] path, is not under src/.  Section 7 (2):
    a missing input file is reported and the process exits; the library does
    so by aborting. *)
Definition Mesh_from_file (w : World) (file : string) : prog unit :=
  if opens w file then ret tt
  else (emit (Cerr ("Mesh file not found: " ++ file)%string) ;;;
        halt (Aborted "Mesh file not found"))%prog.

(** Lines 245-264. *)
Definition open_mesh (w : World) (o : Options) : prog unit :=
  if cubit o then Mesh_from_file w (mesh_file o)
  else if negb (opens w (mesh_file o))
  then (emit_if (myid w =? 0)
          (Cerr ("Can not open mesh file: " ++ mesh_file o)%string) ;;;
        emit MPI_Finalize ;;;
        halt (Returned 2))%prog
  else ret tt.

(** Lines 278-286. *)
Definition check_grain_file (w : World) (o : Options) : prog unit :=
  if cp o
  then emit_if (negb (opens w (grain_file o)) && (myid w =? 0))
         (Cerr ("Can not open grain file: " ++ grain_file o)%string)
  else ret tt.

(** Lines 223-286 in order.  [Done (err, o)] means that control reaches
    line 288 with the variables [o]: the run goes on to build the finite
    element space, load the grain data, construct the operator and enter the
    time loop. *)
Definition main_startup (w : World) (o : Options) : prog (Z * Options) :=
  (parse_check w ;;;
   eo <- check_material w o ;;
   open_mesh w (snd eo) ;;;
   check_grain_file w (snd eo) ;;;
   ret eo)%prog.

(* ------------------------------------------------------------------ *)
(** ** [NonlinearMechOperator] (lines 79-113, 542-687) *)

Inductive Model : Type :=
| AbaqusUmatModel
| NeoHookeanModel (mu K : float).

Inductive Integrator : Type :=
| UserDefinedNLFIntegrator (m : Model)
| HyperelasticNLFIntegrator (m : Model).

(** The part of a [ParNonlinearForm] the constructor touches. *)
Record ParNonlinearForm : Type := mkForm {
  ess_bc : option (list Z);
  dnfi : list Integrator
}.

Definition new_ParNonlinearForm : ParNonlinearForm :=
  {| ess_bc := None; dnfi := [] |}.

Definition AddDomainIntegrator (f : ParNonlinearForm) (i : Integrator)
  : ParNonlinearForm :=
  {| ess_bc := ess_bc f; dnfi := dnfi f ++ [i] |}.

Inductive Preconditioner : Type :=
| HypreBoomerAMG
| HypreSmoother_l1Jacobi.

Inductive LinearSolver : Type :=
| GMRESSolver (rel_tol abs_tol : float) (max_iter : Z)
| SuperLUSolver
| MINRESSolver (rel_tol abs_tol : float) (max_iter : Z).

Record NewtonSolver : Type := mkNewton {
  iterative_mode : bool;
  print_level : Z;
  rel_tol : float;
  abs_tol : float;
  max_iter : Z
}.

(** The members of the class.  [Hform] is a pointer and [form] the object
    it points to once line 585 has run; [model] is [None] while the pointer
    [model] has not been assigned. *)
Record NonlinearMechOperator : Type := mkOper {
  Hform : pointer;
  form : ParNonlinearForm;
  model : option Model;
  J_solver : LinearSolver;
  J_prec : option Preconditioner;
  newton_solver : NewtonSolver
}.

(** Lines 587-598: which constitutive model is created and which domain
    integrator is added to the form [Hform] points to. *)
Definition bind_model (Hform : pointer) (umat hyperelastic : bool)
    (f : ParNonlinearForm) : prog (option Model * ParNonlinearForm) :=
  if umat then
    let m := AbaqusUmatModel in
    (through Hform ;;;
     ret (Some m, AddDomainIntegrator f (UserDefinedNLFIntegrator m)))%prog
  else if hyperelastic then
    let m := NeoHookeanModel 0.25%float 5.0%float in
    (through Hform ;;;
     ret (Some m, AddDomainIntegrator f (HyperelasticNLFIntegrator m)))%prog
  else ret (None, f).

(** Lines 600-642: the linear solver and its preconditioner. *)
Definition pick_solver (gmres slu : bool) (rel_tol : float)
  : LinearSolver * option Preconditioner :=
  if gmres then (GMRESSolver rel_tol 1e-12%float 300, Some HypreBoomerAMG)
  else if slu then (SuperLUSolver, None)
  else (MINRESSolver rel_tol 0.0%float 300, Some HypreSmoother_l1Jacobi).

(** The constructor, statement by statement.  The initialiser list (lines
    552-553) gives [Hform] no value.  Lines 561-582 declare quadrature
    functions local to the constructor and change no member. *)
Definition NonlinearMechOperator_ctor
    (ess_bdr : list Z) (rel_tol abs_tol : float) (iter : Z)
    (gmres slu hyperelastic umat : bool) : prog NonlinearMechOperator :=
  let Hform := Wild in
  (* 559: Hform->SetEssentialBC(ess_bdr, rhs); *)
  (through Hform ;;;
   (* 585: Hform = new ParNonlinearForm(&fes); *)
   let Hform := Valid in
   let form := new_ParNonlinearForm in
   (* 588-598 *)
   mf <- bind_model Hform umat hyperelastic form ;;
   let '(model, form) := mf in
   (* 600-642 *)
   let '(J_solver, J_prec) := pick_solver gmres slu rel_tol in
   (* 644-651 *)
   let newton := {| iterative_mode := true; print_level := 1;
                    rel_tol := rel_tol; abs_tol := abs_tol;
                    max_iter := iter |} in
   ret (mkOper Hform form model J_solver J_prec newton))%prog.

(** What the library does for the driver: the Newton iteration on an
    operator (its final iterate and [GetConverged()]), and the grid-function
    operations of the time loop.  They are not under src/ and stay
    parameters. *)
Record Library : Type := mkLibrary {
  Newton_Mult : NonlinearMechOperator -> Vector -> Vector -> Vector * bool;
  ProjectBdrCoefficient :
    (Vector -> Vector -> prog Vector) -> list Z -> Vector -> prog Vector;
  GetTrueDofs : Vector -> Vector;
  Distribute : Vector -> Vector
}.

(** Modelled from the spec: the macro [MFEM_VERIFY] of the library is not
    under src/.  Sections 4.2 and 7 (4): a condition that does not hold is a
    fatal assertion that aborts the run. *)
Definition MFEM_VERIFY (cond : bool) (msg : string) : prog unit :=
  if cond then ret tt else halt (Aborted msg).

(** Lines 655-661.  [x] is passed by reference: the result is its value
    when [Solve] returns. *)
Definition Solve (lib : Library) (oper : NonlinearMechOperator) (x : Vector)
  : prog Vector :=
  let zero : Vector := [] in
  (emit (NewtonMult x) ;;;
   let '(x, converged) := Newton_Mult lib oper zero x in
   MFEM_VERIFY converged "Newton Solver did not converge." ;;;
   ret x)%prog.

(* ------------------------------------------------------------------ *)
(** ** The boundary function [NonZeroBdrFunc] (lines 739-751)

    The output vector [y] is passed by reference with the size the caller
    gave it; the result is its value on return. *)

Definition NonZeroBdrFunc (x : Vector) (t : float) (y : Vector)
  : prog Vector :=
  let y := assign_all y 0%float in
  assign y 2 (-0.1)%float.

(* ------------------------------------------------------------------ *)
(** ** The time schedule of the loop (lines 450-453 and 477)

    The three expressions are written once over the arithmetic they use;
    the program computes them in binary64. *)

Class Arith (T : Type) : Type := mkArith {
  plus : T -> T -> T;
  minus : T -> T -> T;
  times : T -> T -> T;
  less : T -> T -> bool;
  less_eq : T -> T -> bool;
  epsilon : T                     (* 1e-8 *)
}.

#[export] Instance binary64 : Arith float :=
  {| plus := PrimFloat.add;
     minus := PrimFloat.sub;
     times := PrimFloat.mul;
     less := PrimFloat.ltb;
     less_eq := PrimFloat.leb;
     epsilon := 1e-8%float |}.

Section Schedule.
Context {T : Type} `{Arith T}.

(** [std::min(a, b)]: [b] when [b < a], else [a]. *)
Definition min (a b : T) : T := if less b a then b else a.

(** [dt_real = min(dt, t_final - t); t = t + dt_real;] *)
Definition advance (dt t_final t : T) : T :=
  let dt_real := min dt (minus t_final t) in
  plus t dt_real.

(** [last_step = (t >= t_final - 1e-8*dt);] *)
Definition reached (dt t_final t : T) : bool :=
  less_eq (minus t_final (times epsilon dt)) t.

(** The times of the loop alone: [Some times] when the exit test first
    holds within [fuel] passes, [times] being the value of [t] in each pass
    up to that one. *)
Fixpoint schedule (fuel : nat) (dt t_final t : T) : option (list T) :=
  match fuel with
  | O => None
  | S fuel' =>
      let t := advance dt t_final t in
      if reached dt t_final t then Some [t]
      else match schedule fuel' dt t_final t with
           | Some times => Some (t :: times)
           | None => None
           end
  end.

End Schedule.

(* ------------------------------------------------------------------ *)
(** ** The time loop of [main] (lines 441-532) *)

(** The variables the loop reads and writes. *)
Record LoopState : Type := mkLoopState {
  t : float;
  x : Vector;
  x_gf : Vector;
  x_ref : Vector;
  x_def : Vector;
  x_non_zero_ess : Vector;
  x_bar_gf : Vector;
  ess_bdr : list Z
}.

Fixpoint zip_with {A B C} (f : A -> B -> C) (a : list A) (b : list B)
  : list C :=
  match a, b with
  | u :: a', v :: b' => f u v :: zip_with f a' b'
  | _, _ => []
  end.

(** [add(a, b, c)] and [subtract(a, b, c)] of the library's vectors: the
    value given to [c]. *)
Definition add (a b : Vector) : Vector := zip_with PrimFloat.add a b.
Definition subtract (a b : Vector) : Vector := zip_with PrimFloat.sub a b.

(** One pass through the body (lines 449-530), for the counter value [ti]:
    whether it was the last step, and the variables after it. *)
Definition time_step (lib : Library) (oper : NonlinearMechOperator)
    (o : Options) (myid : Z) (ti : Z) (s : LoopState)
  : prog (bool * LoopState) :=
  (* 450-453 *)
  let t := advance (dt o) (t_final o) (t s) in
  (* 456: non_zero_ess_func.SetTime(t) *)
  let non_zero_ess_func := fun p y => NonZeroBdrFunc p t y in
  (* 460-462 *)
  let ess_bdr := assign_all (ess_bdr s) 0 in
  (ess_bdr <- assign ess_bdr 1 1 ;;
   x_non_zero_ess <-
     ProjectBdrCoefficient lib non_zero_ess_func ess_bdr (x_non_zero_ess s) ;;
   (* 466 *)
   ess_bdr <- assign ess_bdr 0 1 ;;
   (* 471-472 *)
   let x_bar_gf := add x_non_zero_ess (x_gf s) in
   let x := GetTrueDofs lib x_bar_gf in
   (* 475 *)
   x <- Solve lib oper x ;;
   (* 477 *)
   let last_step := reached (dt o) (t_final o) t in
   (* 479-494; [ti % vis_steps] is evaluated only when [last_step] is false *)
   (if negb last_step && (vis_steps o =? 0) then halt DivisionByZero
    else ret tt) ;;;
   let report := last_step || (Z.rem ti (vis_steps o) =? 0) in
   let x_gf1 := if report then Distribute lib x else x_gf s in
   let x_def1 := if report then subtract x_gf1 (x_ref s) else x_def s in
   emit_if (report && (myid =? 0)) (StepReport ti t) ;;;
   (* 496-509 *)
   let x_gf2 := if negb last_step then Distribute lib x else x_gf1 in
   let x_def2 := if negb last_step then subtract x_gf2 (x_ref s) else x_def1 in
   let x_ref2 := if negb last_step then x_gf2 else x_ref s in
   (* 511-530 *)
   emit (MeshSnapshot myid ti) ;;;
   emit (DeformationSnapshot myid ti) ;;;
   ret (last_step,
        mkLoopState t x x_gf2 x_ref2 x_def2 x_non_zero_ess x_bar_gf ess_bdr)
  )%prog.

(** [for (int ti = 1; !last_step; ti++)], run for at most [fuel] passes:
    [None] when the exit test has not held by then. *)
Fixpoint time_loop (fuel : nat) (lib : Library) (oper : NonlinearMechOperator)
    (o : Options) (myid : Z) (ti : Z) (s : LoopState)
  : option (prog LoopState) :=
  match fuel with
  | O => None
  | S fuel' =>
      match time_step lib oper o myid ti s with
      | (out, Stopped e) => Some (out, Stopped e)
      | (out, Done (true, s')) => Some (out, Done s')
      | (out, Done (false, s')) =>
          match time_loop fuel' lib oper o myid (ti + 1) s' with
          | Some (out', r) => Some (out ++ out', r)
          | None => None
          end
      end
  end.

(** Lines 442-445: the loop starts at [t = 0.0], [ti = 1]. *)
Definition run_time_loop (fuel : nat) (lib : Library)
    (oper : NonlinearMechOperator) (o : Options) (myid : Z) (s : LoopState)
  : option (prog LoopState) :=
  let s := mkLoopState 0.0%float (x s) (x_gf s) (x_ref s) (x_def s)
             (x_non_zero_ess s) (x_bar_gf s) (ess_bdr s) in
  time_loop fuel lib oper o myid 1 s.

(** The reported times, the steps with a mesh file and the steps with a
    deformation file in an output. *)
Definition reported_times (out : list event) : list float :=
  flat_map (fun e => match e with StepReport _ t => [t] | _ => [] end) out.

Definition mesh_files (out : list event) : list (Z * Z) :=
  flat_map (fun e => match e with MeshSnapshot r i => [(r, i)] | _ => [] end)
    out.

Definition deformation_files (out : list event) : list (Z * Z) :=
  flat_map
    (fun e => match e with DeformationSnapshot r i => [(r, i)] | _ => [] end)
    out.

Definition newton_calls (out : list event) : nat :=
  List.length
    (flat_map (fun e => match e with NewtonMult _ => [tt] | _ => [] end) out).

Fixpoint nondecreasing (l : list float) : bool :=
  match l with
  | a :: ((b :: _) as l') => PrimFloat.leb a b && nondecreasing l'
  | _ => true
  end.

(* ------------------------------------------------------------------ *)
(** ** The grain loader [setGrainData] (lines 816-870) *)

(** What the loader asks of the finite element space and the mesh: for each
    element its attribute ([GetAttribute(i)]) and the number of points of
    the rule [IntRules.Get(geom, 2*order + 3)]; the mesh's array
    [attributes]. *)
Record ParFiniteElementSpace : Type := mkFES {
  element_attribute : list Z;
  element_npoints : list Z
}.

Definition GetNE (fes : ParFiniteElementSpace) : Z :=
  Z.of_nat (List.length (element_attribute fes)).

Record ParMesh : Type := mkMesh {
  attributes : list Z
}.

(** Modelled from the spec: the classes [QuadratureSpace] and
    [QuadratureFunction] of the library are not under src/.  Section 3 and
    4.4: a per-quadrature-point data table, [vdim] values for each point,
    the points of an element stored together.  [element_offsets] has the
    index of each element's first point and, last, the number of points; an
    entry of [data] is [None] while nothing has been stored in it. *)
Record QuadratureSpace : Type := mkQSpace {
  element_offsets : list Z
}.

Definition GetSize (qs : QuadratureSpace) : Z := last (element_offsets qs) 0.

Record QuadratureFunction : Type := mkQF {
  qspace : option QuadratureSpace;
  vdim : Z;
  data : list (option float)
}.

(** [QuadratureFunction matVars;] (line 326). *)
Definition empty_QuadratureFunction : QuadratureFunction :=
  {| qspace := None; vdim := 1; data := [] |}.

Definition SetSpace (qf : QuadratureFunction) (qs : QuadratureSpace)
    (vdim_ : Z) : QuadratureFunction :=
  let vd := if vdim_ <? 0 then vdim qf else vdim_ in
  let n := Z.to_nat (vd * GetSize qs) in
  {| qspace := Some qs;
     vdim := vd;
     data := if (n <=? List.length (data qf))%nat then firstn n (data qf)
             else repeat None n |}.

(** [GetElementValues(idx, values)]: [values] becomes a view of the entries
    of element [idx]; the result is where the view starts in [data]. *)
Definition GetElementValues (qf : QuadratureFunction) (idx : Z) : prog Z :=
  match qspace qf with
  | None => halt NullDereference
  | Some qs =>
      (s_offset <- index (element_offsets qs) idx ;;
       ret (vdim qf * s_offset))%prog
  end.

(** [elem_data[n] = v] where [elem_data] points to entry [base] of the
    data. *)
Definition store (qf : QuadratureFunction) (base n : Z) (v : float)
  : prog QuadratureFunction :=
  (d <- assign (data qf) (base + n) (Some v) ;;
   ret {| qspace := qspace qf; vdim := vdim qf; data := d |})%prog.

(** Line 866, for the component [k] of the quadrature point [j]. *)
Definition copy_component (grain_data : Vector)
    (grain_offset elem_atr base : Z) (j k : Z) (qf : QuadratureFunction)
  : prog QuadratureFunction :=
  (v <- index grain_data (k + grain_offset * elem_atr) ;;
   store qf base (k + grain_offset * j) v)%prog.

(** Lines 855-868: the loops over the quadrature points [j] and the
    components [k] of one element. *)
Definition fill_element (grain_data : Vector) (grain_offset elem_atr : Z)
    (npoints base : Z) (qf : QuadratureFunction) : prog QuadratureFunction :=
  for_each (range npoints) (fun j qf =>
    for_each (range grain_offset)
      (copy_component grain_data grain_offset elem_atr base j) qf) qf.

(** The function.  [matVars] is the pointer parameter and [target] the
    object the caller passed the address of; the result is that object when
    the function returns. *)
Definition setGrainData (matVars : pointer) (target : QuadratureFunction)
    (qspace : QuadratureSpace) (g_orient : Vector) (grain_offset : Z)
    (fe_space : ParFiniteElementSpace) (pmesh : ParMesh)
  : prog QuadratureFunction :=
  (* 824: matVars->SetSpace(qspace, grain_offset); *)
  (through matVars ;;;
   let target := SetSpace target qspace grain_offset in
   (* 825: matVars = 0; *)
   let matVars := Null in
   (* 836 *)
   let grain_data := g_orient in
   (* 839-869 *)
   for_each (range (GetNE fe_space)) (fun i target =>
     (* 841-842 *)
     npoints <- index (element_npoints fe_space) i ;;
     (* 846 *)
     a <- index (element_attribute fe_space) i ;;
     elem_atr <- index (attributes pmesh) a ;;
     (* 849-852: matVars->GetElementValues(i, elem_vec) *)
     through matVars ;;;
     elem_data <- GetElementValues target i ;;
     (* 855-868 *)
     fill_element grain_data grain_offset elem_atr npoints elem_data target)
     target)%prog.

(** The [grain_offset] values stored for quadrature point [j] of the
    element whose data starts at [base]. *)
Definition point_slice (qf : QuadratureFunction) (grain_offset base j : Z)
  : list (option float) :=
  firstn (Z.to_nat grain_offset)
    (skipn (Z.to_nat (base + grain_offset * j)) (data qf)).

(** The [grain_offset] values of grain [g] in the orientation table. *)
Definition grain_slice (g_orient : Vector) (grain_offset g : Z)
  : list (option float) :=
  map Some (firstn (Z.to_nat grain_offset)
              (skipn (Z.to_nat (grain_offset * g)) g_orient)).

(* ------------------------------------------------------------------ *)
(** ** Runs

    Command lines, environments and library behaviours at which the
    definitions above are evaluated below. *)

Definition inconsistent_input : event :=
  Cerr "Inconsistent material input; check args".

(** The counter values of [n] passes starting at [ti]. *)
Fixpoint count_from (ti : Z) (n : nat) : list Z :=
  match n with
  | O => []
  | S n' => ti :: count_from (ti + 1) n'
  end.

(** Of the times of the passes numbered from [ti] on, those that line 479
    lets through: the pass is the last one or [ti % vis_steps == 0]. *)
Fixpoint reported_of (o : Options) (ti : Z) (times : list float)
  : list float :=
  match times with
  | [] => []
  | t :: rest =>
      (if reached (dt o) (t_final o) t || (Z.rem ti (vis_steps o) =? 0)
       then [t] else []) ++ reported_of o (ti + 1) rest
  end.

(** The material options and the schedule options of a command line. *)
Definition with_material (h m c e q u : bool) (n : Z) (o : Options)
  : Options :=
  {| mesh_file := mesh_file o; grain_file := grain_file o; ngrains := n;
     ser_ref_levels := ser_ref_levels o; par_ref_levels := par_ref_levels o;
     order := order o; t_final := t_final o; dt := dt o;
     visualization := visualization o; gmres_solver := gmres_solver o;
     slu_solver := slu_solver o; vis_steps := vis_steps o; cubit := cubit o;
     newton_rel_tol := newton_rel_tol o; newton_abs_tol := newton_abs_tol o;
     newton_iter := newton_iter o;
     hyperelastic := h; umat := m; cp := c;
     grain_euler := e; grain_q := q; grain_uniform := u;
     grain_uni_vec := grain_uni_vec o |}.

Definition with_schedule (tf step : float) (o : Options) : Options :=
  {| mesh_file := mesh_file o; grain_file := grain_file o;
     ngrains := ngrains o;
     ser_ref_levels := ser_ref_levels o; par_ref_levels := par_ref_levels o;
     order := order o; t_final := tf; dt := step;
     visualization := visualization o; gmres_solver := gmres_solver o;
     slu_solver := slu_solver o; vis_steps := vis_steps o; cubit := cubit o;
     newton_rel_tol := newton_rel_tol o; newton_abs_tol := newton_abs_tol o;
     newton_iter := newton_iter o;
     hyperelastic := hyperelastic o; umat := umat o; cp := cp o;
     grain_euler := grain_euler o; grain_q := grain_q o;
     grain_uniform := grain_uniform o;
     grain_uni_vec := grain_uni_vec o |}.

(** [-cp] and nothing else. *)
Definition cp_only : Options :=
  with_material false false true false false false 0 default_options.

(** [-hyperel -umat -cp -ge]. *)
Definition hyperelastic_and_more : Options :=
  with_material true true true true false false 0 default_options.

(** [-cp -ge -ng 1]. *)
Definition cp_euler_one_grain : Options :=
  with_material false false true true false false 1 default_options.

(** [-hyperel -tf tf -dt step]. *)
Definition hyperelastic_run (tf step : float) : Options :=
  with_schedule tf step
    (with_material true false false false false false 0 default_options).

(** Rank 0, a command line that parses; every file opens, or every file
    but the grain file. *)
Definition rank0_all_files : World :=
  {| myid := 0; args_good := true; opens := fun _ => true |}.

Definition rank0_no_grain_file : World :=
  {| myid := 0; args_good := true;
     opens := fun f => negb (String.eqb f "grains.txt") |}.

(** A library whose Newton solver halves each entry and reports convergence
    only on vectors of at most two entries, and one whose solver converges
    at once on every vector.  Their other calls return what they are
    given. *)
Definition toy_library : Library :=
  {| Newton_Mult := fun _ _ x =>
       (map (fun v => PrimFloat.mul 0.5 v) x, (List.length x <=? 2)%nat);
     ProjectBdrCoefficient := fun _ _ g => ret g;
     GetTrueDofs := fun g => g;
     Distribute := fun x => x |}.

Definition converging_library : Library :=
  {| Newton_Mult := fun _ _ x => (x, true);
     ProjectBdrCoefficient := fun _ _ g => ret g;
     GetTrueDofs := fun g => g;
     Distribute := fun x => x |}.

(** An operator as the constructor would leave it with [-hyperel], were
    [Hform] assigned before its first use. *)
Definition toy_oper : NonlinearMechOperator :=
  {| Hform := Valid;
     form := {| ess_bc := Some [0; 0];
                dnfi := [HyperelasticNLFIntegrator
                           (NeoHookeanModel 0.25 5.0)] |};
     model := Some (NeoHookeanModel 0.25 5.0);
     J_solver := GMRESSolver 1e-12 1e-12 300;
     J_prec := Some HypreBoomerAMG;
     newton_solver := {| iterative_mode := true; print_level := 1;
                         rel_tol := 1e-12; abs_tol := 1e-12;
                         max_iter := 500 |} |}.

(** One node, three displacement components, two boundary attributes. *)
Definition one_node : LoopState :=
  let z := [0; 0; 0]%float in
  mkLoopState 0.0%float z z z z z z [0; 0].

(** Two hexahedra with attributes 1 and 2, one quadrature point each, and
    three grains given by Euler angles. *)
Definition two_elements : ParFiniteElementSpace :=
  {| element_attribute := [1; 2]; element_npoints := [1; 1] |}.

Definition two_attributes : ParMesh := {| attributes := [1; 2] |}.

Definition two_points : QuadratureSpace := {| element_offsets := [0; 1; 2] |}.

Definition three_grains : Vector :=
  [0.1; 0.2; 0.3; 1.1; 1.2; 1.3; 2.1; 2.2; 2.3]%float.

(* ------------------------------------------------------------------ *)
(** ** Further parts of the source *)

(** Lines 306-322 of [main]: the number of values that define one grain
    orientation. *)
Definition grain_offset_of (w : World) (o : Options) : prog Z :=
  let grain_offset := 0 in
  if grain_euler o then ret 3
  else if grain_q o then ret 4
  else if grain_uniform o then
    let vdim := Z.of_nat (List.length (grain_uni_vec o)) in
    if (vdim =? 0) && (myid w =? 0)
    then (emit (Cerr "Must specify a uniform grain orientation vector") ;;;
          ret grain_offset)%prog
    else ret 3
  else ret grain_offset.

(** The value an [int] keeps of [z]: the 32 bits of two's complement. *)
Definition int_wrap (z : Z) : Z := (z + 2 ^ 31) mod 2 ^ 32 - 2 ^ 31.

(** Lines 337-350 of [main]: the orientation table handed to
    [setGrainData].  [gsize] is a product of two [int]s.  [load n] is what
    the library's [Load(igrain, n)] leaves in [g_orient]. *)
Definition grain_table (load : Z -> Vector) (grain_offset : Z) (o : Options)
  : Vector :=
  let gsize := int_wrap (grain_offset * ngrains o) in
  if negb (grain_uniform o) then load gsize else grain_uni_vec o.

(** Lines 585-651 of the constructor: the statements after the first use of
    [Hform], from the creation of the form on. *)
Definition members_from_585 (rel_tol abs_tol : float) (iter : Z)
    (gmres slu hyperelastic umat : bool) : prog NonlinearMechOperator :=
  let Hform := Valid in
  let form := new_ParNonlinearForm in
  (mf <- bind_model Hform umat hyperelastic form ;;
   let '(model, form) := mf in
   let '(J_solver, J_prec) := pick_solver gmres slu rel_tol in
   let newton := {| iterative_mode := true; print_level := 1;
                    rel_tol := rel_tol; abs_tol := abs_tol;
                    max_iter := iter |} in
   ret (mkOper Hform form model J_solver J_prec newton))%prog.

(** What the destructor deletes. *)
Inductive owned : Type :=
| OwnedSolver (s : LinearSolver)
| OwnedPreconditioner (p : Preconditioner)
| OwnedModel (m : Model).

(** Lines 680-687: the objects deleted, in order.  [delete model] with a
    [model] that was never assigned uses a wild pointer. *)
Definition NonlinearMechOperator_dtor (op : NonlinearMechOperator)
  : prog (list owned) :=
  let deleted := [OwnedSolver (J_solver op)] in
  let deleted :=
    match J_prec op with
    | Some p => deleted ++ [OwnedPreconditioner p]
    | None => deleted
    end in
  match model op with
  | Some m => ret (deleted ++ [OwnedModel m])
  | None => halt WildDereference
  end.

(** [-vs vs]. *)
Definition with_vis_steps (vs : Z) (o : Options) : Options :=
  {| mesh_file := mesh_file o; grain_file := grain_file o;
     ngrains := ngrains o;
     ser_ref_levels := ser_ref_levels o; par_ref_levels := par_ref_levels o;
     order := order o; t_final := t_final o; dt := dt o;
     visualization := visualization o; gmres_solver := gmres_solver o;
     slu_solver := slu_solver o; vis_steps := vs; cubit := cubit o;
     newton_rel_tol := newton_rel_tol o; newton_abs_tol := newton_abs_tol o;
     newton_iter := newton_iter o;
     hyperelastic := hyperelastic o; umat := umat o; cp := cp o;
     grain_euler := grain_euler o; grain_q := grain_q o;
     grain_uniform := grain_uniform o;
     grain_uni_vec := grain_uni_vec o |}.

(** [-cp -gu -ng 2] with or without [-guv]. *)
Definition cp_uniform (v : Vector) : Options :=
  {| mesh_file := "../../data/beam-hex.mesh"; grain_file := "grains.txt";
     ngrains := 2; ser_ref_levels := 0; par_ref_levels := 0; order := 1;
     t_final := 300.0%float; dt := 3.0%float; visualization := true;
     gmres_solver := true; slu_solver := false; vis_steps := 1;
     cubit := false; newton_rel_tol := 1.0e-12%float;
     newton_abs_tol := 1.0e-12%float; newton_iter := 500;
     hyperelastic := false; umat := false; cp := true;
     grain_euler := false; grain_q := false; grain_uniform := true;
     grain_uni_vec := v |}.

(** A command line that does not parse, on rank 0 and on rank 3. *)
Definition rank0_bad_args : World :=
  {| myid := 0; args_good := false; opens := fun _ => true |}.

Definition rank3_no_files : World :=
  {| myid := 3; args_good := true; opens := fun _ => false |}.

(** The state and the output of the first pass of [-hyperel -tf 1.0 -dt 0.2]
    on [one_node] with the converging library, on rank 0. *)
Definition one_node_after_a_pass : LoopState :=
  let z := [0; 0; 0]%float in
  mkLoopState 0.2%float z z z z z z [1; 1].

Definition first_pass_output : list event :=
  [NewtonMult [0; 0; 0]%float; StepReport 1 0.2%float;
   MeshSnapshot 0 1; DeformationSnapshot 0 1].

(** The variables of the loop at [t = 1.0], where a step of [1e-20] is
    absorbed. *)
Definition one_node_at_one : LoopState :=
  let z := [0; 0; 0]%float in
  mkLoopState 1.0%float z z z z z z [1; 1].

(** The data of two elements of three values each, the second already
    filled. *)
Definition two_blocks : QuadratureFunction :=
  {| qspace := Some two_points; vdim := 3;
     data := [None; None; None; Some 9; Some 9; Some 9]%float |}.

(** The data outside the entries [lo .. hi-1] is the same, and so are the
    size, the space and [vdim]. *)
Definition same_outside (lo hi : nat) (qf qf' : QuadratureFunction) : Prop :=
  List.length (data qf') = List.length (data qf) /\
  qspace qf' = qspace qf /\
  vdim qf' = vdim qf /\
  forall i, (i < lo \/ hi <= i)%nat ->
    nth_error (data qf') i = nth_error (data qf) i.

(* ================================================================== *)
(** * Properties *)

(* ------------------------------------------------------------------ *)
(** ** The program monad, arrays *)

Lemma emit_if_done :
  forall b e, emit_if b e = ((if b then [e] else []), Done tt).
Proof. intros [] e; reflexivity. Qed.

Lemma for_each_emit_done :
  forall (l : list string),
    for_each l (fun s (_ : unit) => emit (Cout s)) tt = (map Cout l, Done tt).
Proof.
  induction l as [| s l IH]; [reflexivity |].
  cbn [for_each map]; unfold bind, emit in *; rewrite IH; reflexivity.
Qed.

Lemma assign_all_length :
  forall {A} (a : list A) v, List.length (assign_all a v) = List.length a.
Proof. intros; apply length_map. Qed.

Lemma nth_assign_all :
  forall {A} (a : list A) (v d : A) i,
    (i < List.length a)%nat -> nth i (assign_all a v) d = v.
Proof.
  induction a as [| w a IH]; intros v d i Hi; cbn in *; [lia |].
  destruct i; [reflexivity | apply IH; lia].
Qed.

Lemma replace_nth_length :
  forall {A} n (v : A) a, List.length (replace_nth n v a) = List.length a.
Proof.
  intros A n v a; revert n; induction a as [| w a IH]; intros [| n]; cbn;
    auto.
Qed.

Lemma nth_replace_nth :
  forall {A} (a : list A) n i (v d : A),
    (n < List.length a)%nat ->
    nth i (replace_nth n v a) d = if (i =? n)%nat then v else nth i a d.
Proof.
  induction a as [| w a IH]; intros n i v d Hn; cbn in *; [lia |].
  destruct n, i; cbn; try reflexivity.
  apply IH; lia.
Qed.

Lemma assign_in_range :
  forall {A} (a : list A) i (v : A),
    0 <= i < Z.of_nat (List.length a) ->
    assign a i v = ([], Done (replace_nth (Z.to_nat i) v a)).
Proof.
  intros A a i v Hi; unfold assign.
  destruct (Z.ltb_spec i 0), (Z.leb_spec (Z.of_nat (List.length a)) i);
    try lia; reflexivity.
Qed.

Lemma index_cases :
  forall {A} (a : list A) i,
    (exists v, index a i = ([], Done v)) \/
    index a i = ([], Stopped OutOfBounds).
Proof.
  intros A a i; unfold index.
  destruct (i <? 0); [right; reflexivity |].
  destruct (nth_error a (Z.to_nat i)) as [v |];
    [left; exists v; reflexivity | right; reflexivity].
Qed.

Lemma range_positive :
  forall n, 0 < n -> exists l, range n = 0 :: l.
Proof.
  intros n Hn; unfold range.
  destruct (Z.to_nat n) as [| m] eqn:E; [lia |].
  cbn [seq map]; eexists; reflexivity.
Qed.

(* ------------------------------------------------------------------ *)
(** ** The validator *)

Ltac all_flags :=
  repeat match goal with b : bool |- _ => destruct b end.

(** With [hyperelastic] set, the copies the validator works on are all
    cleared and it returns 0, whatever the other arguments. *)
Lemma checkMaterialArgs_hyperelastic_clears_copies :
  forall umat cp e q u n,
    let r := run_checkMaterialArgs true umat cp e q u n in
    vr_err r = 0 /\ vr_umat r = false /\ vr_cp r = false /\
    vr_grain_euler r = false /\ vr_grain_q r = false /\
    vr_grain_uniform r = false.
Proof. intros; subst r; cbv; repeat split. Qed.

(** With crystal plasticity alone (no [umat]), the validator accepts exactly
    the calls with one orientation representation and at least one grain. *)
Lemma checkMaterialArgs_cp_accepts :
  forall e q u n,
    checkMaterialArgs false false true e q u n =
    if exactly_one e q u && (1 <=? n) then 0 else 1.
Proof.
  intros e q u n; unfold checkMaterialArgs, run_checkMaterialArgs.
  destruct (Z.ltb_spec n 1), (Z.leb_spec 1 n); try lia; all_flags; reflexivity.
Qed.

(** With [umat] set as well, the copies of the orientation flags are cleared
    first and every call with [cp] is refused. *)
Lemma checkMaterialArgs_umat_cp_refused :
  forall e q u n, checkMaterialArgs false true true e q u n = 1.
Proof. intros; all_flags; reflexivity. Qed.

Lemma checkMaterialArgs_zero_or_one :
  forall h m c e q u n,
    checkMaterialArgs h m c e q u n = 0 \/ checkMaterialArgs h m c e q u n = 1.
Proof.
  intros h m c e q u n; unfold checkMaterialArgs, run_checkMaterialArgs.
  destruct (n <? 1); all_flags; cbn; auto.
Qed.

(** C7.  With the crystal-plasticity flag set and [hyperelastic] clear,
    [checkMaterialArgs] returns 1 unless exactly one orientation
    representation is chosen and [ngrains >= 1]: it returns 1 whenever the
    orientation flags are not exactly one or [ngrains < 1].  In particular
    it returns 1 for no orientation flag with [ngrains = 5], and for Euler
    together with quaternion. *)
Theorem checkMaterialArgs_cp_needs_one_orientation :
  forall umat e q u n,
    (exactly_one e q u = false \/ n < 1 ->
     checkMaterialArgs false umat true e q u n = 1) /\
    checkMaterialArgs false umat true false false false 5 = 1 /\
    checkMaterialArgs false umat true true true u n = 1.
Proof.
  intros umat e q u n; split; [intros Hbad | split].
  - destruct umat; [apply checkMaterialArgs_umat_cp_refused |].
    rewrite checkMaterialArgs_cp_accepts.
    destruct Hbad as [Hone | Hn].
    + rewrite Hone; reflexivity.
    + destruct (Z.leb_spec 1 n); [lia |].
      rewrite andb_false_r; reflexivity.
  - destruct umat; reflexivity.
  - destruct umat; [apply checkMaterialArgs_umat_cp_refused |].
    rewrite checkMaterialArgs_cp_accepts; destruct u; reflexivity.
Qed.

Lemma checkMaterialArgs_cp_needs_one_orientation_witness :
  checkMaterialArgs false false true true false true 3 = 1 /\
  checkMaterialArgs false true true false true false 0 = 1.
Proof.
  split.
  - apply (proj1 (checkMaterialArgs_cp_needs_one_orientation
                    false true false true 3)).
    left; reflexivity.
  - apply (proj1 (checkMaterialArgs_cp_needs_one_orientation
                    true false true false 0)).
    right; lia.
Defined.

(* ------------------------------------------------------------------ *)
(** ** The start of [main] *)

(** Lines 238-243 never leave [main]: what they do is print, and set
    [err]. *)
Lemma check_material_done :
  forall w o,
    let r := run_checkMaterialArgs (hyperelastic o) (umat o) (cp o)
               (grain_euler o) (grain_q o) (grain_uniform o) (ngrains o) in
    check_material w o =
    (map Cout (vr_cout r) ++
     (if (vr_err r =? 1) && (myid w =? 0) then [inconsistent_input] else []),
     Done (vr_err r, o)).
Proof.
  intros w o r; unfold check_material; fold r.
  unfold bind; rewrite for_each_emit_done, emit_if_done; cbn.
  rewrite app_nil_r; reflexivity.
Qed.

(** Nor does the grain-file check. *)
Lemma check_grain_file_done :
  forall w o, exists out, check_grain_file w o = (out, Done tt).
Proof.
  intros w o; unfold check_grain_file.
  destruct (cp o); [rewrite emit_if_done |]; eexists; reflexivity.
Qed.

(** The start-up once the command line has parsed: the validation adds its
    output and the mesh is attempted next, whatever [err] is. *)
Lemma main_startup_after_parse :
  forall w o,
    args_good w = true ->
    main_startup w o =
    (emit_if (myid w =? 0) PrintOptions ;;;
     eo <- check_material w o ;;
     open_mesh w o ;;;
     check_grain_file w o ;;;
     ret eo)%prog.
Proof.
  intros w o Hgood; unfold main_startup, parse_check.
  rewrite Hgood; cbn [negb].
  rewrite !check_material_done; reflexivity.
Qed.

(** With the mesh file there, the start-up reaches line 288 with the
    variables as parsed: neither [err] nor the grain file stops it. *)
Lemma main_startup_proceeds :
  forall w o,
    args_good w = true ->
    opens w (mesh_file o) = true ->
    let r := run_checkMaterialArgs (hyperelastic o) (umat o) (cp o)
               (grain_euler o) (grain_q o) (grain_uniform o) (ngrains o) in
    main_startup w o =
    ((if myid w =? 0 then [PrintOptions] else []) ++
     (map Cout (vr_cout r) ++
      (if (vr_err r =? 1) && (myid w =? 0) then [inconsistent_input] else [])) ++
     (if cp o && (negb (opens w (grain_file o)) && (myid w =? 0))
      then [Cerr ("Can not open grain file: " ++ grain_file o)%string]
      else []),
     Done (vr_err r, o)).
Proof.
  intros w o Hgood Hmesh r.
  rewrite main_startup_after_parse by assumption.
  rewrite check_material_done; fold r.
  unfold open_mesh, Mesh_from_file, check_grain_file; rewrite Hmesh.
  rewrite !emit_if_done.
  destruct (cubit o), (cp o); cbn -[String.append];
    rewrite ?emit_if_done; cbn -[String.append];
    rewrite ?app_nil_r; reflexivity.
Qed.

(** A mesh file that does not open ends the run before line 265, with exit
    code 2 on the stream path and by the library's abort on the [cubit]
    path; rank 0 has written an error. *)
Lemma main_startup_missing_mesh_file :
  forall w o,
    args_good w = true ->
    opens w (mesh_file o) = false ->
    exists out,
      main_startup w o =
      (out, Stopped (if cubit o then Aborted "Mesh file not found"
                     else Returned 2)) /\
      (myid w = 0 -> exists s, In (Cerr s) out).
Proof.
  intros w o Hgood Hmesh.
  rewrite main_startup_after_parse by assumption.
  rewrite check_material_done, emit_if_done.
  unfold open_mesh, Mesh_from_file; rewrite Hmesh.
  destruct (cubit o); cbn -[String.append run_checkMaterialArgs].
  - eexists; split; [reflexivity |].
    intros _; eexists; rewrite !in_app_iff; right; right; left; reflexivity.
  - rewrite emit_if_done; cbn -[String.append run_checkMaterialArgs].
    eexists; split; [reflexivity |].
    intros H0; rewrite H0; cbn -[String.append run_checkMaterialArgs].
    eexists; rewrite !in_app_iff; right; right; left; reflexivity.
Qed.

(** C8.  When [checkMaterialArgs] returns 1, rank 0 writes the
    inconsistency to the error stream and execution goes on past the
    validation: lines 238-243 end normally with [err = 1] and the variables
    unchanged, and with the mesh file there the start-up reaches line 288
    with that same inconsistent configuration. *)
Theorem inconsistent_flags_reported_and_ignored :
  forall w o,
    args_good w = true ->
    checkMaterialArgs (hyperelastic o) (umat o) (cp o) (grain_euler o)
      (grain_q o) (grain_uniform o) (ngrains o) = 1 ->
    (exists out,
       check_material w o = (out, Done (1, o)) /\
       (myid w = 0 -> In inconsistent_input out)) /\
    (opens w (mesh_file o) = true ->
     exists out,
       main_startup w o = (out, Done (1, o)) /\
       (myid w = 0 -> In inconsistent_input out)).
Proof.
  intros w o Hgood Herr; unfold checkMaterialArgs in Herr; split.
  - rewrite check_material_done, Herr.
    eexists; split; [reflexivity |].
    intros H0; rewrite H0; cbn [Z.eqb Pos.eqb andb].
    rewrite in_app_iff; right; left; reflexivity.
  - intros Hmesh.
    rewrite main_startup_proceeds by assumption; rewrite Herr.
    eexists; split; [reflexivity |].
    intros H0; rewrite H0; cbn [Z.eqb Pos.eqb andb].
    rewrite !in_app_iff; right; left; right; left; reflexivity.
Qed.

Lemma inconsistent_flags_reported_and_ignored_witness :
  exists out,
    main_startup rank0_all_files cp_only = (out, Done (1, cp_only)) /\
    (myid rank0_all_files = 0 -> In inconsistent_input out).
Proof.
  apply (proj2 (inconsistent_flags_reported_and_ignored
                  rank0_all_files cp_only eq_refl eq_refl)).
  reflexivity.
Defined.

(** C10.  [checkMaterialArgs] takes its seven arguments by value: it
    returns 0 or 1 only, and after the call (lines 238-243) the variables of
    [main] are what the command line made them, also when the validator has
    reassigned its own copies (as it does when [hyperelastic] is set). *)
Theorem checkMaterialArgs_leaves_caller_flags :
  forall w o,
    let r := run_checkMaterialArgs (hyperelastic o) (umat o) (cp o)
               (grain_euler o) (grain_q o) (grain_uniform o) (ngrains o) in
    let err := checkMaterialArgs (hyperelastic o) (umat o) (cp o)
                 (grain_euler o) (grain_q o) (grain_uniform o) (ngrains o) in
    (err = 0 \/ err = 1) /\
    (exists out, check_material w o = (out, Done (err, o))) /\
    (hyperelastic o = true ->
     vr_umat r = false /\ vr_cp r = false /\ vr_grain_euler r = false /\
     vr_grain_q r = false /\ vr_grain_uniform r = false).
Proof.
  intros w o r err; split; [| split].
  - apply checkMaterialArgs_zero_or_one.
  - rewrite check_material_done; eexists; reflexivity.
  - intros Hh; subst r; rewrite Hh.
    apply checkMaterialArgs_hyperelastic_clears_copies.
Qed.

Lemma checkMaterialArgs_leaves_caller_flags_witness :
  (exists out,
     check_material rank0_all_files hyperelastic_and_more =
     (out, Done (0, hyperelastic_and_more))) /\
  umat hyperelastic_and_more = true /\
  vr_umat (run_checkMaterialArgs true true true true false false 0) = false.
Proof.
  pose proof (checkMaterialArgs_leaves_caller_flags
                rank0_all_files hyperelastic_and_more) as H.
  cbv zeta in H; destruct H as [_ [Hcall Hcopies]].
  split; [exact Hcall | split; [reflexivity |]].
  exact (proj1 (Hcopies eq_refl)).
Defined.

(** C1 (the code departs from it).  With [-hyperel -umat -cp -ge] the
    validator returns 0 and clears only its own copies; [main] reaches line
    288 with [umat], [cp] and [grain_euler] still set, and the constructor,
    which tests [umat] first, creates the user-material model and adds the
    user-defined integrator: the Neo-Hookean model is not the one bound. *)
Theorem hyperelastic_does_not_override_umat :
  main_startup rank0_all_files hyperelastic_and_more =
    ([PrintOptions;
      Cout "Hyperelastic set to true; using Neohookean model"],
     Done (0, hyperelastic_and_more)) /\
  umat hyperelastic_and_more = true /\
  cp hyperelastic_and_more = true /\
  grain_euler hyperelastic_and_more = true /\
  bind_model Valid (umat hyperelastic_and_more)
    (hyperelastic hyperelastic_and_more) new_ParNonlinearForm =
    ([], Done (Some AbaqusUmatModel,
               {| ess_bc := None;
                  dnfi := [UserDefinedNLFIntegrator AbaqusUmatModel] |})).
Proof. repeat split. Qed.

(** The Neo-Hookean model is bound only when [umat] is clear. *)
Lemma bind_model_neo_hookean :
  forall p umat hyperelastic f out mu K f',
    bind_model p umat hyperelastic f =
      (out, Done (Some (NeoHookeanModel mu K), f')) ->
    umat = false /\ hyperelastic = true.
Proof.
  intros [] [] [] f out mu K f' Hb; cbn in Hb; inversion Hb; auto.
Qed.

(** C3 (the code departs from it).  With [-cp -ge -ng 1], the mesh file
    there and the grain file missing, rank 0 writes the error and control
    reaches line 288 all the same: there is no [return] on this path, and
    the run goes on to the construction of the operator and the solve. *)
Theorem missing_grain_file_does_not_exit :
  opens rank0_no_grain_file (mesh_file cp_euler_one_grain) = true /\
  opens rank0_no_grain_file (grain_file cp_euler_one_grain) = false /\
  main_startup rank0_no_grain_file cp_euler_one_grain =
    ([PrintOptions; Cerr "Can not open grain file: grains.txt"],
     Done (0, cp_euler_one_grain)).
Proof. repeat split. Qed.

(* ------------------------------------------------------------------ *)
(** ** The operator *)

(** C9 (the code departs from it).  Every construction stops at line 559:
    [Hform] is used there for [SetEssentialBC] and is assigned only at line
    585. *)
Theorem ctor_uses_Hform_before_assignment :
  forall ess_bdr rel_tol abs_tol iter gmres slu hyperelastic umat,
    NonlinearMechOperator_ctor ess_bdr rel_tol abs_tol iter gmres slu
      hyperelastic umat = ([], Stopped WildDereference).
Proof. reflexivity. Qed.

Lemma Solve_run :
  forall lib oper x,
    Solve lib oper x =
    ([NewtonMult x],
     if snd (Newton_Mult lib oper [] x)
     then Done (fst (Newton_Mult lib oper [] x))
     else Stopped (Aborted "Newton Solver did not converge.")).
Proof.
  intros lib oper x0; unfold Solve.
  destruct (Newton_Mult lib oper [] x0) as [x1 []]; reflexivity.
Qed.

(** A result of [Solve] is always a converged iterate. *)
Lemma Solve_done_converged :
  forall lib oper x out x',
    Solve lib oper x = (out, Done x') ->
    Newton_Mult lib oper [] x = (x', true).
Proof.
  intros lib oper x0 out x' H; rewrite Solve_run in H.
  destruct (Newton_Mult lib oper [] x0) as [x1 []]; cbn in H;
    inversion H; subst; reflexivity.
Qed.

(** A pass of the time loop in which the solver does not converge ends the
    loop there: one call of the solver, no report, no snapshot. *)
Lemma time_loop_aborts_with_Solve :
  forall lib oper o rank ti s fuel,
    (forall f b g,
       exists g', ProjectBdrCoefficient lib f b g = ([], Done g')) ->
    (2 <= List.length (ess_bdr s))%nat ->
    (forall x, snd (Newton_Mult lib oper [] x) = false) ->
    exists out,
      time_loop (S fuel) lib oper o rank ti s =
        Some (out, Stopped (Aborted "Newton Solver did not converge.")) /\
      newton_calls out = 1%nat /\
      reported_times out = [] /\
      mesh_files out = [] /\
      deformation_files out = [].
Proof.
  intros lib oper o rank ti s fuel Hproj Hlen Hdiv.
  cbn [time_loop]; unfold time_step.
  rewrite assign_in_range by (rewrite assign_all_length; lia).
  change (Z.to_nat 1) with 1%nat.
  destruct (Hproj (fun p y => NonZeroBdrFunc p
                                (advance (dt o) (t_final o) (t s)) y)
              (replace_nth 1 1 (assign_all (ess_bdr s) 0))
              (x_non_zero_ess s)) as [g' Hg].
  cbn [bind ret]; rewrite Hg; cbn [bind ret app].
  rewrite assign_in_range
    by (rewrite replace_nth_length, assign_all_length; lia).
  cbn [bind ret app]; rewrite Solve_run, Hdiv.
  eexists; split; [reflexivity | repeat split].
Qed.

(** C4.  [Solve] runs the Newton solver once on [x].  When the solver has
    converged, [x] is left at the solver's iterate; when it has not, the run
    aborts on the failed assertion: no vector is returned, the solver is
    not called a second time, and the time loop ends in that pass with the
    abort. *)
Theorem Solve_aborts_unless_converged :
  forall lib oper x,
    let r := Newton_Mult lib oper [] x in
    (snd r = true -> Solve lib oper x = ([NewtonMult x], Done (fst r))) /\
    (snd r = false ->
     Solve lib oper x =
     ([NewtonMult x], Stopped (Aborted "Newton Solver did not converge."))) /\
    newton_calls (fst (Solve lib oper x)) = 1%nat /\
    (forall out x', Solve lib oper x = (out, Done x') -> snd r = true) /\
    (forall o rank ti s fuel,
       (forall f b g,
          exists g', ProjectBdrCoefficient lib f b g = ([], Done g')) ->
       (2 <= List.length (ess_bdr s))%nat ->
       (forall y, snd (Newton_Mult lib oper [] y) = false) ->
       exists out,
         time_loop (S fuel) lib oper o rank ti s =
           Some (out, Stopped (Aborted "Newton Solver did not converge.")) /\
         newton_calls out = 1%nat /\
         mesh_files out = []).
Proof.
  intros lib oper x0 r; subst r; repeat split.
  - intros Hc; rewrite Solve_run, Hc; reflexivity.
  - intros Hc; rewrite Solve_run, Hc; reflexivity.
  - rewrite Solve_run; reflexivity.
  - intros out x' H; apply Solve_done_converged in H; rewrite H; reflexivity.
  - intros o rank ti s fuel Hproj Hlen Hdiv.
    destruct (time_loop_aborts_with_Solve lib oper o rank ti s fuel
                Hproj Hlen Hdiv) as (out & Hrun & Hn & _ & Hm & _).
    exists out; repeat split; assumption.
Qed.

Lemma Solve_aborts_unless_converged_witness :
  Solve toy_library toy_oper [1; 2; 3]%float =
    ([NewtonMult [1; 2; 3]%float],
     Stopped (Aborted "Newton Solver did not converge.")) /\
  Solve toy_library toy_oper [1; 2]%float =
    ([NewtonMult [1; 2]%float], Done [0.5; 1]%float).
Proof.
  split.
  - apply (proj1 (proj2 (Solve_aborts_unless_converged
                           toy_library toy_oper [1; 2; 3]%float))).
    reflexivity.
  - apply (proj1 (Solve_aborts_unless_converged
                    toy_library toy_oper [1; 2]%float)).
    reflexivity.
Defined.

(* ------------------------------------------------------------------ *)
(** ** The boundary function *)

(** C6.  Whatever the point [x] and the time [t], [NonZeroBdrFunc] leaves in
    a vector [y] with a third coordinate the value [-0.1] there and 0 in
    every other coordinate; the result does not depend on [x] or [t], and
    the final time is no argument of it. *)
Theorem NonZeroBdrFunc_constant :
  forall x t y,
    (2 < List.length y)%nat ->
    exists y',
      NonZeroBdrFunc x t y = ([], Done y') /\
      List.length y' = List.length y /\
      (forall i, (i < List.length y)%nat ->
         nth i y' 0%float = if (i =? 2)%nat then (-0.1)%float else 0%float) /\
      (forall x' t', NonZeroBdrFunc x' t' y = NonZeroBdrFunc x t y).
Proof.
  intros x0 t0 y Hy; unfold NonZeroBdrFunc.
  rewrite assign_in_range by (rewrite assign_all_length; lia).
  eexists; split; [reflexivity | split; [| split]].
  - rewrite replace_nth_length, assign_all_length; reflexivity.
  - intros i Hi; change (Z.to_nat 2) with 2%nat.
    rewrite nth_replace_nth by (rewrite assign_all_length; lia).
    destruct (i =? 2)%nat; [reflexivity |].
    apply nth_assign_all; assumption.
  - reflexivity.
Qed.

Lemma NonZeroBdrFunc_constant_witness :
  exists y',
    NonZeroBdrFunc [0.5; 0.25; 1]%float 0.4%float [7; 8; 9]%float
      = ([], Done y') /\
    y' = [0; 0; -0.1]%float.
Proof.
  destruct (NonZeroBdrFunc_constant [0.5; 0.25; 1]%float 0.4%float
              [7; 8; 9]%float) as [y' [Hrun _]]; [cbn; lia |].
  exists y'; split; [exact Hrun |].
  cbv in Hrun; inversion Hrun; reflexivity.
Defined.

(* ------------------------------------------------------------------ *)
(** ** The time schedule *)

Lemma schedule_pass :
  forall {T} `{Arith T} fuel (dt t_final t : T),
    schedule (S fuel) dt t_final t =
    if reached dt t_final (advance dt t_final t)
    then Some [advance dt t_final t]
    else match schedule fuel dt t_final (advance dt t_final t) with
         | Some times => Some (advance dt t_final t :: times)
         | None => None
         end.
Proof. reflexivity. Qed.

Lemma schedule_more_fuel :
  forall {T} `{Arith T} fuel k (dt t_final t : T) times,
    schedule fuel dt t_final t = Some times ->
    schedule (fuel + k) dt t_final t = Some times.
Proof.
  intros T HT fuel k dt0 tf; induction fuel as [| fuel IH];
    intros t0 times Hs; cbn in *; [discriminate |].
  destruct (reached dt0 tf (advance dt0 tf t0)); [assumption |].
  destruct (schedule fuel dt0 tf (advance dt0 tf t0)) as [l |] eqn:E;
    [| discriminate].
  rewrite (IH _ _ E); assumption.
Qed.

Lemma schedule_less_fuel :
  forall {T} `{Arith T} fuel k (dt t_final t : T),
    schedule (fuel + k) dt t_final t = None ->
    schedule fuel dt t_final t = None.
Proof.
  intros T HT fuel k dt0 tf t0 Hs.
  destruct (schedule fuel dt0 tf t0) as [l |] eqn:E; [| reflexivity].
  rewrite (schedule_more_fuel fuel k _ _ _ _ E) in Hs; discriminate.
Qed.

(** In binary64, [-tf 1.0 -dt 0.2] gives five passes and no fewer. *)
Lemma binary64_schedule_fifth :
  schedule 5 0.2%float 1.0%float 0.0%float =
    Some [0.2; 0.4; 0.6000000000000001; 0.8; 1.0]%float /\
  schedule 4 0.2%float 1.0%float 0.0%float = None.
Proof. split; vm_compute; reflexivity. Qed.

(** A pass that leaves the time where it was, with the exit test failing
    there, is followed by passes that do the same. *)
Lemma schedule_stalls :
  forall {T} `{Arith T} (dt t_final t : T),
    advance dt t_final t = t ->
    reached dt t_final t = false ->
    forall fuel, schedule fuel dt t_final t = None.
Proof.
  intros T HT dt0 tf t0 Hadv Hreached; induction fuel as [| fuel IH];
    [reflexivity |].
  rewrite schedule_pass, Hadv, Hreached, IH; reflexivity.
Qed.

(** Three facts of binary64 arithmetic: [x - 0] is [x], [x <= y] holds
    when [x < y] does, and a negative [x] is [0 + x] and [x <= x]. *)
Lemma binary64_sub_zero :
  forall x : float, (x - 0)%float = x.
Proof.
  intros x0; apply Prim2SF_inj; rewrite sub_spec.
  change (Prim2SF 0) with (S754_zero false).
  destruct (Prim2SF x0) as [[|] | [|] | | s m e]; reflexivity.
Qed.

Lemma binary64_leb_false_ltb :
  forall x y : float, (x <=? y)%float = false -> (x <? y)%float = false.
Proof.
  intros x0 y0; rewrite leb_spec, ltb_spec; unfold SFleb, SFltb.
  destruct (SFcompare (Prim2SF x0) (Prim2SF y0)) as [[| |] |];
    intros Hle; try reflexivity; discriminate Hle.
Qed.

Lemma binary64_negative :
  forall x : float,
    (x <? 0)%float = true ->
    (0 + x)%float = x /\ (x <=? x)%float = true.
Proof.
  intros x0; rewrite ltb_spec, leb_spec; intros Hlt; split.
  - apply Prim2SF_inj; rewrite add_spec.
    change (Prim2SF 0) with (S754_zero false) in *.
    destruct (Prim2SF x0) as [[|] | [|] | | s m e]; try reflexivity;
      discriminate Hlt.
  - change (Prim2SF 0) with (S754_zero false) in *.
    unfold SFleb, SFltb in *.
    destruct (Prim2SF x0) as [[|] | [|] | | [|] m e]; try reflexivity;
      try discriminate Hlt;
      cbn; rewrite Z.compare_refl, Pos.compare_refl; reflexivity.
Qed.

(** In binary64, with a step of zero the time stays at 0 and the exit test
    fails there, unless [t_final <= 0] holds. *)
Lemma binary64_zero_step_stalls :
  forall t_final : float,
    (t_final <=? 0)%float = false ->
    advance 0%float t_final 0%float = 0%float /\
    reached 0%float t_final 0%float = false.
Proof.
  intros tf Hle; unfold advance, reached, min.
  cbn [plus minus times less less_eq epsilon binary64].
  change (1e-8 * 0)%float with 0%float.
  rewrite binary64_sub_zero, (binary64_leb_false_ltb _ _ Hle).
  split; [reflexivity | exact Hle].
Qed.

(** And when [t_final <= 0] holds the first pass meets the exit test. *)
Lemma binary64_zero_step_once :
  forall t_final : float,
    (t_final <=? 0)%float = true ->
    reached 0%float t_final (advance 0%float t_final 0%float) = true.
Proof.
  intros tf Hle; unfold advance, reached, min.
  cbn [plus minus times less less_eq epsilon binary64].
  change (1e-8 * 0)%float with 0%float.
  rewrite binary64_sub_zero.
  destruct (tf <? 0)%float eqn:Hlt.
  - destruct (binary64_negative tf Hlt) as [-> Hrefl]; exact Hrefl.
  - change (0 + 0)%float with 0%float; exact Hle.
Qed.

(* ------------------------------------------------------------------ *)
(** ** The time loop *)

Lemma newton_calls_app :
  forall a b, newton_calls (a ++ b) = (newton_calls a + newton_calls b)%nat.
Proof.
  intros a b; unfold newton_calls; rewrite flat_map_app, length_app.
  reflexivity.
Qed.

Lemma last_cons_default :
  forall {A} (l : list A) a d, last (a :: l) d = last l a.
Proof.
  induction l as [| b l IH]; intros a d; [reflexivity |].
  change (last (a :: b :: l) d) with (last (b :: l) d).
  rewrite (IH b d), (IH b a); reflexivity.
Qed.

Section TimeLoop.

Variables (lib : Library) (oper : NonlinearMechOperator) (o : Options).
Variable rank : Z.

(** The library calls of the body return, and the Newton solver converges. *)
Hypothesis projection_returns :
  forall f b g, exists g', ProjectBdrCoefficient lib f b g = ([], Done g').
Hypothesis newton_converges :
  forall x, snd (Newton_Mult lib oper [] x) = true.
(** [ti % vis_steps] is defined. *)
Hypothesis vis_steps_nonzero : vis_steps o <> 0.

(** One pass: the time advances as the schedule says, the solver is called
    once and both snapshots are written, whether the pass is reported or
    not; rank 0 reports the time when line 479 says so. *)
Lemma time_step_runs :
  forall ti s,
    (2 <= List.length (ess_bdr s))%nat ->
    let t' := advance (dt o) (t_final o) (t s) in
    exists out s',
      time_step lib oper o rank ti s =
        (out, Done (reached (dt o) (t_final o) t', s')) /\
      t s' = t' /\
      List.length (ess_bdr s') = List.length (ess_bdr s) /\
      newton_calls out = 1%nat /\
      mesh_files out = [(rank, ti)] /\
      deformation_files out = [(rank, ti)] /\
      reported_times out =
        if rank =? 0 then reported_of o ti [t'] else [].
Proof.
  intros ti s Hlen t'; unfold time_step; fold t'.
  rewrite assign_in_range by (rewrite assign_all_length; lia).
  change (Z.to_nat 1) with 1%nat.
  destruct (projection_returns (fun p y => NonZeroBdrFunc p t' y)
              (replace_nth 1 1 (assign_all (ess_bdr s) 0))
              (x_non_zero_ess s)) as [g' Hg].
  cbn [bind ret]; rewrite Hg; cbn [bind ret app].
  rewrite assign_in_range
    by (rewrite replace_nth_length, assign_all_length; lia).
  cbn [bind ret app]; rewrite Solve_run, newton_converges.
  assert ((vis_steps o =? 0) = false) as ->
      by (apply Z.eqb_neq; exact vis_steps_nonzero).
  rewrite andb_false_r; cbn [bind ret app].
  rewrite emit_if_done; cbn [reported_of].
  destruct (reached (dt o) (t_final o) t' || (Z.rem ti (vis_steps o) =? 0)),
           (rank =? 0);
    cbn [bind ret emit app andb orb negb];
    (eexists; eexists; split; [reflexivity |]);
    cbn [t ess_bdr newton_calls mesh_files deformation_files reported_times
         flat_map app List.length];
    rewrite !replace_nth_length, assign_all_length; repeat split.
Qed.

(** The loop ends when the schedule does, after as many passes, each with
    one solve and one pair of snapshots. *)
Lemma time_loop_follows_schedule :
  forall fuel ti s times,
    schedule fuel (dt o) (t_final o) (t s) = Some times ->
    (2 <= List.length (ess_bdr s))%nat ->
    exists out s',
      time_loop fuel lib oper o rank ti s = Some (out, Done s') /\
      t s' = last times (t s) /\
      newton_calls out = List.length times /\
      mesh_files out = map (pair rank) (count_from ti (List.length times)) /\
      deformation_files out =
        map (pair rank) (count_from ti (List.length times)) /\
      reported_times out = if rank =? 0 then reported_of o ti times else [].
Proof.
  induction fuel as [| fuel IH]; intros ti s times Hs Hlen;
    cbn [schedule] in Hs; [discriminate |].
  cbn [time_loop].
  destruct (time_step_runs ti s Hlen)
    as (out1 & s1 & Hstep & Ht & Hl & Hn & Hm & Hd & Hr).
  rewrite Hstep.
  destruct (reached (dt o) (t_final o) (advance (dt o) (t_final o) (t s))).
  - inversion Hs; subst times.
    exists out1, s1; repeat split; assumption.
  - destruct (schedule fuel (dt o) (t_final o)
                (advance (dt o) (t_final o) (t s))) as [l |] eqn:E;
      [| discriminate].
    inversion Hs; subst times.
    rewrite <- Ht in E.
    destruct (IH (ti + 1) s1 l E ltac:(lia))
      as (out2 & s2 & Hloop & Ht2 & Hn2 & Hm2 & Hd2 & Hr2).
    rewrite Hloop.
    exists (out1 ++ out2), s2; repeat split.
    + rewrite Ht2, Ht; symmetry; apply last_cons_default.
    + rewrite newton_calls_app, Hn, Hn2; reflexivity.
    + unfold mesh_files in *; rewrite flat_map_app, Hm, Hm2; reflexivity.
    + unfold deformation_files in *; rewrite flat_map_app, Hd, Hd2;
        reflexivity.
    + unfold reported_times in *; rewrite flat_map_app, Hr, Hr2.
      cbn [reported_of]; destruct (rank =? 0);
        [rewrite app_nil_r |]; reflexivity.
Qed.

(** And it does not end before the schedule does. *)
Lemma time_loop_waits_for_schedule :
  forall fuel ti s,
    schedule fuel (dt o) (t_final o) (t s) = None ->
    (2 <= List.length (ess_bdr s))%nat ->
    time_loop fuel lib oper o rank ti s = None.
Proof.
  induction fuel as [| fuel IH]; intros ti s Hs Hlen; [reflexivity |].
  cbn [schedule] in Hs; cbn [time_loop].
  destruct (time_step_runs ti s Hlen) as (out1 & s1 & Hstep & Ht & Hl & _).
  rewrite Hstep.
  destruct (reached (dt o) (t_final o) (advance (dt o) (t_final o) (t s)));
    [discriminate |].
  destruct (schedule fuel (dt o) (t_final o)
              (advance (dt o) (t_final o) (t s))) as [l |] eqn:E;
    [discriminate |].
  rewrite <- Ht in E.
  rewrite (IH (ti + 1) s1 E ltac:(lia)); reflexivity.
Qed.

End TimeLoop.

(** The reports of the five passes of [-tf 1.0 -dt 0.2]: the fifth always,
    the others as [vis_steps] divides their number. *)
Lemma reported_of_fifth :
  forall o,
    t_final o = 1.0%float ->
    dt o = 0.2%float ->
    reported_of o 1 [0.2; 0.4; 0.6000000000000001; 0.8; 1.0]%float =
    (if Z.rem 1 (vis_steps o) =? 0 then [0.2%float] else []) ++
    (if Z.rem 2 (vis_steps o) =? 0 then [0.4%float] else []) ++
    (if Z.rem 3 (vis_steps o) =? 0 then [0.6000000000000001%float] else []) ++
    (if Z.rem 4 (vis_steps o) =? 0 then [0.8%float] else []) ++
    [1.0%float].
Proof.
  intros o Htf Hdt; cbn [reported_of]; rewrite Htf, Hdt.
  change (reached 0.2 1.0 0.2)%float with false.
  change (reached 0.2 1.0 0.4)%float with false.
  change (reached 0.2 1.0 0.6000000000000001)%float with false.
  change (reached 0.2 1.0 0.8)%float with false.
  change (reached 0.2 1.0 1.0)%float with true.
  reflexivity.
Qed.

(** C5 (as stated it fails).  With [-dt 0] the time never moves and the
    exit test never holds: the loop does not terminate, however many passes
    it is given. *)
Lemma time_loop_zero_step_never_ends :
  dt (hyperelastic_run 1.0 0.0) = 0.0%float /\
  t_final (hyperelastic_run 1.0 0.0) = 1.0%float /\
  forall fuel rank,
    run_time_loop fuel converging_library toy_oper (hyperelastic_run 1.0 0.0)
      rank one_node = None.
Proof.
  split; [reflexivity | split; [reflexivity |]].
  intros fuel rank; unfold run_time_loop.
  apply time_loop_waits_for_schedule.
  - intros f b g; exists g; reflexivity.
  - reflexivity.
  - discriminate.
  - apply schedule_stalls; apply binary64_zero_step_stalls; reflexivity.
  - cbn; lia.
Qed.

(** C5 (amended).  With [-tf 1.0 -dt 0.2], at least two boundary
    attributes, the library calls returning and the Newton solver
    converging, the loop started at [t = 0] makes exactly five passes: it
    has not ended after four, and the fifth ends it at [t = 1.0].  Each
    pass writes one mesh and one deformation snapshot for the rank,
    whatever [vis_steps] (not 0) is; the times rank 0 reports are
    non-decreasing and end at 1.0, and with [vis_steps = 1] they are the
    five times of the passes.  The loop does not end for every [dt]: under
    the same conditions and with [-dt 0] it never ends, however many passes
    it is given, unless [t_final <= 0] holds, and then it ends with its
    first pass. *)
Theorem time_loop_five_passes :
  (forall lib oper o rank s fuel,
     (forall f b g,
        exists g', ProjectBdrCoefficient lib f b g = ([], Done g')) ->
     (forall x, snd (Newton_Mult lib oper [] x) = true) ->
     vis_steps o <> 0 ->
     t_final o = 1.0%float ->
     dt o = 0.2%float ->
     (2 <= List.length (ess_bdr s))%nat ->
     ((fuel < 5)%nat -> run_time_loop fuel lib oper o rank s = None) /\
     ((5 <= fuel)%nat ->
      exists out s',
        run_time_loop fuel lib oper o rank s = Some (out, Done s') /\
        t s' = 1.0%float /\
        newton_calls out = 5%nat /\
        mesh_files out = map (pair rank) [1; 2; 3; 4; 5] /\
        deformation_files out = map (pair rank) [1; 2; 3; 4; 5] /\
        nondecreasing (reported_times out) = true /\
        (rank = 0 -> last (reported_times out) 0%float = 1.0%float) /\
        (vis_steps o = 1 ->
         reported_times out =
           if rank =? 0
           then [0.2; 0.4; 0.6000000000000001; 0.8; 1.0]%float else []))) /\
  (forall lib oper o rank s fuel,
     (forall f b g,
        exists g', ProjectBdrCoefficient lib f b g = ([], Done g')) ->
     (forall x, snd (Newton_Mult lib oper [] x) = true) ->
     vis_steps o <> 0 ->
     dt o = 0%float ->
     (2 <= List.length (ess_bdr s))%nat ->
     ((t_final o <=? 0)%float = false ->
      run_time_loop fuel lib oper o rank s = None) /\
     ((t_final o <=? 0)%float = true ->
      exists out s',
        run_time_loop (S fuel) lib oper o rank s = Some (out, Done s') /\
        newton_calls out = 1%nat /\
        mesh_files out = [(rank, 1)] /\
        deformation_files out = [(rank, 1)])).
Proof.
  split.
  - intros lib oper o rank s fuel Hproj Hnewton Hvis Htf Hdt Hlen.
    destruct binary64_schedule_fifth as [H5 H4].
    unfold run_time_loop; split; intros Hfuel.
    + apply time_loop_waits_for_schedule; try assumption.
      rewrite Htf, Hdt; cbn [t].
      apply (schedule_less_fuel fuel (4 - fuel)).
      replace (fuel + (4 - fuel))%nat with 4%nat by lia; exact H4.
    + destruct (time_loop_follows_schedule lib oper o rank Hproj Hnewton Hvis
                  fuel 1
                  (mkLoopState 0.0%float (x s) (x_gf s) (x_ref s) (x_def s)
                     (x_non_zero_ess s) (x_bar_gf s) (ess_bdr s))
                  [0.2; 0.4; 0.6000000000000001; 0.8; 1.0]%float)
        as (out & s' & Hloop & Ht & Hn & Hm & Hd & Hr).
      * rewrite Htf, Hdt; cbn [t].
        replace fuel with (5 + (fuel - 5))%nat by lia.
        apply schedule_more_fuel; exact H5.
      * exact Hlen.
      * rewrite (reported_of_fifth o Htf Hdt) in Hr.
        exists out, s'; repeat split; try assumption.
        -- rewrite Hr.
           destruct (rank =? 0); [| reflexivity].
           destruct (Z.rem 1 (vis_steps o) =? 0),
                    (Z.rem 2 (vis_steps o) =? 0),
                    (Z.rem 3 (vis_steps o) =? 0),
                    (Z.rem 4 (vis_steps o) =? 0); reflexivity.
        -- intros H0; rewrite Hr, H0; cbn [Z.eqb].
           destruct (Z.rem 1 (vis_steps o) =? 0),
                    (Z.rem 2 (vis_steps o) =? 0),
                    (Z.rem 3 (vis_steps o) =? 0),
                    (Z.rem 4 (vis_steps o) =? 0); reflexivity.
        -- intros H1; rewrite Hr, H1; reflexivity.
  - intros lib oper o rank s fuel Hproj Hnewton Hvis Hdt Hlen.
    unfold run_time_loop; split; intros Htf.
    + apply time_loop_waits_for_schedule; try assumption.
      rewrite Hdt; cbn [t].
      apply schedule_stalls; apply binary64_zero_step_stalls; exact Htf.
    + destruct (time_loop_follows_schedule lib oper o rank Hproj Hnewton Hvis
                  (S fuel) 1
                  (mkLoopState 0.0%float (x s) (x_gf s) (x_ref s) (x_def s)
                     (x_non_zero_ess s) (x_bar_gf s) (ess_bdr s))
                  [advance 0%float (t_final o) 0%float])
        as (out & s' & Hloop & _ & Hn & Hm & Hd & _).
      * rewrite Hdt; cbn [t]; rewrite schedule_pass.
        rewrite (binary64_zero_step_once _ Htf); reflexivity.
      * exact Hlen.
      * exists out, s'; repeat split; assumption.
Qed.

Lemma time_loop_five_passes_witness :
  exists out s',
    run_time_loop 5 converging_library toy_oper (hyperelastic_run 1.0 0.2) 0
      one_node = Some (out, Done s') /\
    t s' = 1.0%float /\
    mesh_files out = [(0, 1); (0, 2); (0, 3); (0, 4); (0, 5)] /\
    reported_times out = [0.2; 0.4; 0.6000000000000001; 0.8; 1.0]%float.
Proof.
  destruct (proj1 time_loop_five_passes converging_library toy_oper
              (hyperelastic_run 1.0 0.2) 0 one_node 5%nat) as [_ H].
  - intros f b g; exists g; reflexivity.
  - reflexivity.
  - discriminate.
  - reflexivity.
  - reflexivity.
  - cbn; lia.
  - destruct (H (le_n 5)) as (out & s' & Hrun & Ht & _ & Hm & _ & _ & _ & Hr).
    exists out, s'; repeat split; try assumption.
    apply Hr; reflexivity.
Defined.

(* ------------------------------------------------------------------ *)
(** ** The grain loader *)

Lemma bind_done :
  forall {A B} (m : prog A) (k : A -> prog B) out b,
    bind m k = (out, Done b) ->
    exists out1 a out2,
      m = (out1, Done a) /\ k a = (out2, Done b) /\ out = out1 ++ out2.
Proof.
  intros A B [o1 [a | s]] k out b H; cbn in H; [| discriminate].
  destruct (k a) as [o2 r] eqn:E; inversion H; subst.
  exists o1, a, o2; auto.
Qed.

Lemma for_each_app :
  forall {A S} (body : A -> S -> prog S) l1 l2 s,
    for_each (l1 ++ l2) body s =
    bind (for_each l1 body s) (for_each l2 body).
Proof.
  intros A S body l1 l2; induction l1 as [| a l1 IH]; intros s.
  - cbn; destruct (for_each l2 body s); reflexivity.
  - cbn [app for_each].
    destruct (body a s) as [o [s1 | st]]; cbn; [| reflexivity].
    rewrite IH.
    destruct (for_each l1 body s1) as [o1 [s2 | st]]; cbn; [| reflexivity].
    destruct (for_each l2 body s2) as [o2 r]; rewrite app_assoc; reflexivity.
Qed.

Lemma for_each_last_done :
  forall {A S} (body : A -> S -> prog S) l a s out s',
    for_each (l ++ [a]) body s = (out, Done s') ->
    exists out1 s1 out2,
      for_each l body s = (out1, Done s1) /\ body a s1 = (out2, Done s').
Proof.
  intros A S body l a s out s' H; rewrite for_each_app in H.
  apply bind_done in H; destruct H as (o1 & s1 & o2 & H1 & H2 & _).
  cbn [for_each] in H2; apply bind_done in H2.
  destruct H2 as (o3 & s2 & o4 & H3 & H4 & _).
  inversion H4; subst; eauto.
Qed.

Lemma index_done :
  forall {A} (a : list A) i out v,
    index a i = (out, Done v) ->
    0 <= i /\ nth_error a (Z.to_nat i) = Some v.
Proof.
  intros A a i out v H; unfold index in H.
  destruct (Z.ltb_spec i 0); [discriminate |].
  destruct (nth_error a (Z.to_nat i)); inversion H; subst; auto.
Qed.

Lemma assign_done :
  forall {A} (a : list A) i v out d,
    assign a i v = (out, Done d) ->
    0 <= i < Z.of_nat (List.length a) /\ d = replace_nth (Z.to_nat i) v a.
Proof.
  intros A a i v out d H; unfold assign in H.
  destruct (Z.ltb_spec i 0), (Z.leb_spec (Z.of_nat (List.length a)) i);
    cbn in H; inversion H; subst; split; (lia || reflexivity).
Qed.

Lemma nth_error_replace_nth :
  forall {A} (a : list A) n i (v : A),
    (n < List.length a)%nat ->
    nth_error (replace_nth n v a) i =
    if (i =? n)%nat then Some v else nth_error a i.
Proof.
  induction a as [| w a IH]; intros n i v Hn; cbn in *; [lia |].
  destruct n, i; cbn; try reflexivity.
  apply IH; lia.
Qed.

Section FillElement.

Variables (grain_data : Vector) (grain_offset elem_atr base : Z).
Hypothesis offset_nonneg : 0 <= grain_offset.
Hypothesis atr_nonneg : 0 <= elem_atr.
Hypothesis base_nonneg : 0 <= base.

Local Abbreviation g := (Z.to_nat grain_offset).
Local Abbreviation q := (Z.to_nat (grain_offset * elem_atr)).
Local Abbreviation b := (Z.to_nat base).

(** The first [m] components of point [j]: entries [p .. p+m-1] of the data
    hold the first [m] values of the grain, the others are as before. *)
Lemma copy_components_done :
  forall (j : nat) (m : nat) qf out qf',
    for_each (map Z.of_nat (seq 0 m))
      (copy_component grain_data grain_offset elem_atr base (Z.of_nat j)) qf =
      (out, Done qf') ->
    let p := (b + g * j)%nat in
    List.length (data qf') = List.length (data qf) /\
    forall i,
      nth_error (data qf') i =
      if (p <=? i)%nat && (i <? p + m)%nat
      then option_map Some (nth_error grain_data (q + (i - p)))
      else nth_error (data qf) i.
Proof.
  intros j m; induction m as [| m IH]; intros qf out qf' H p.
  - cbn in H; inversion H; subst; split; [reflexivity |].
    intros i; destruct (p <=? i)%nat eqn:E1, (i <? p + 0)%nat eqn:E2;
      try reflexivity.
    apply Nat.leb_le in E1; apply Nat.ltb_lt in E2; lia.
  - rewrite seq_S, map_app in H; cbn [map] in H.
    apply for_each_last_done in H.
    destruct H as (o1 & qf1 & o2 & Hloop & Hcopy).
    destruct (IH _ _ _ Hloop) as [Hlen Hnth]; fold p in Hnth.
    unfold copy_component in Hcopy.
    apply bind_done in Hcopy.
    destruct Hcopy as (o3 & v & o4 & Hread & Hstore & _).
    apply index_done in Hread; destruct Hread as [_ Hread].
    unfold store in Hstore; apply bind_done in Hstore.
    destruct Hstore as (o5 & d & o6 & Hwrite & Hret & _).
    apply assign_done in Hwrite; destruct Hwrite as [Hrange Hd].
    inversion Hret; subst qf'; cbn [data].
    replace (Z.to_nat (Z.of_nat (0 + m) + grain_offset * elem_atr))
      with (q + m)%nat in Hread by nia.
    replace (Z.to_nat (base + (Z.of_nat (0 + m) + grain_offset * Z.of_nat j)))
      with (p + m)%nat in Hd by (subst p; nia).
    assert (p + m < List.length (data qf1))%nat as Hin by (subst p; nia).
    subst d; split; [rewrite replace_nth_length; exact Hlen |].
    intros i; rewrite nth_error_replace_nth by exact Hin.
    rewrite Hnth.
    destruct (Nat.eqb_spec i (p + m)) as [-> | Hne].
    + replace (p <=? p + m)%nat with true by (symmetry; apply Nat.leb_le; lia).
      replace (p + m <? p + S m)%nat with true
        by (symmetry; apply Nat.ltb_lt; lia).
      replace (p + m - p)%nat with m by lia.
      cbn [andb]; rewrite Hread; reflexivity.
    + destruct (p <=? i)%nat eqn:E1; [| reflexivity].
      replace (i <? p + S m)%nat with (i <? p + m)%nat; [reflexivity |].
      apply Nat.leb_le in E1.
      destruct (Nat.ltb_spec i (p + m)), (Nat.ltb_spec i (p + S m));
        try reflexivity; lia.
Qed.

(** Lines 855-868 for the first [n] points: each has the grain's values. *)
Lemma copy_points_done :
  forall (n : nat) qf out qf',
    for_each (map Z.of_nat (seq 0 n))
      (fun j qf =>
         for_each (range grain_offset)
           (copy_component grain_data grain_offset elem_atr base j) qf) qf =
      (out, Done qf') ->
    forall j k,
      (j < n)%nat -> (k < g)%nat ->
      nth_error (data qf') (b + g * j + k) =
      option_map Some (nth_error grain_data (q + k)).
Proof.
  induction n as [| n IH]; intros qf out qf' H j k Hj Hk; [lia |].
  rewrite seq_S, map_app in H; cbn [map] in H.
  apply for_each_last_done in H.
  destruct H as (o1 & qf1 & o2 & Hloop & Hpoint).
  unfold range in Hpoint.
  apply copy_components_done in Hpoint; cbv zeta in Hpoint.
  destruct Hpoint as [_ Hnth]; rewrite Hnth.
  destruct (Nat.eq_dec j n) as [-> | Hne].
  - replace (b + g * (0 + n) <=? b + g * n + k)%nat with true
      by (symmetry; apply Nat.leb_le; lia).
    replace (b + g * n + k <? b + g * (0 + n) + g)%nat with true
      by (symmetry; apply Nat.ltb_lt; lia).
    cbn [andb]; f_equal; f_equal; lia.
  - replace (b + g * (0 + n) <=? b + g * j + k)%nat with false
      by (symmetry; apply Nat.leb_gt; nia).
    cbn [andb]; apply (IH _ _ _ Hloop); [lia | assumption].
Qed.

(** When the loops of lines 855-868 run to their end, every quadrature
    point of the element holds the slice of the orientation table with
    index [elem_atr]: the points of one element, and of any two elements
    with the same [elem_atr], hold the same values. *)
Lemma fill_element_assigns_grain :
  forall npoints qf out qf',
    fill_element grain_data grain_offset elem_atr npoints base qf =
      (out, Done qf') ->
    forall j,
      0 <= j < npoints ->
      point_slice qf' grain_offset base j =
      grain_slice grain_data grain_offset elem_atr.
Proof.
  intros npoints qf out qf' H j Hj.
  unfold fill_element, range at 1 in H.
  pose proof (copy_points_done _ _ _ _ H (Z.to_nat j)) as Hpts.
  unfold point_slice, grain_slice.
  replace (Z.to_nat (base + grain_offset * j)) with (b + g * Z.to_nat j)%nat
    by nia.
  apply nth_error_ext; intros i.
  rewrite nth_error_map, !nth_error_firstn, !nth_error_skipn.
  destruct (Nat.ltb_spec i g); [| reflexivity].
  apply Hpts; [lia | assumption].
Qed.

End FillElement.

(** For instance the one point of an element with [elem_atr = 2] gets the
    third grain. *)
Example fill_element_third_grain :
  fill_element three_grains 3 2 1 0
    {| qspace := Some two_points; vdim := 3; data := [None; None; None] |} =
  ([], Done {| qspace := Some two_points; vdim := 3;
               data := [Some 2.1; Some 2.2; Some 2.3]%float |}).
Proof. reflexivity. Qed.

(** Without elements the loader only sets the space of the caller's
    object. *)
Lemma setGrainData_no_elements :
  forall target qs g_orient grain_offset pmesh,
    setGrainData Valid target qs g_orient grain_offset (mkFES [] []) pmesh =
    ([], Done (SetSpace target qs grain_offset)).
Proof. reflexivity. Qed.

(** C2 (the code departs from it).  On a mesh with at least one element the
    loader assigns nothing: line 825 sets the pointer [matVars] itself to
    null, and the first pass of the element loop stops at line 849, where
    the pointer is used again (or before, on an attribute that is no index
    of the mesh's attribute array). *)
Theorem setGrainData_stops_at_first_element :
  forall target qs g_orient grain_offset fe_space pmesh,
    0 < GetNE fe_space ->
    exists s,
      setGrainData Valid target qs g_orient grain_offset fe_space pmesh =
        ([], Stopped s) /\
      (s = NullDereference \/ s = OutOfBounds).
Proof.
  intros target qs g_orient go fes pmesh Hne; unfold setGrainData.
  destruct (range_positive _ Hne) as [l ->].
  cbn [through bind ret for_each app].
  destruct (index_cases (element_npoints fes) 0) as [[n ->] | ->];
    [| eexists; split; [reflexivity | right; reflexivity]].
  cbn [bind app].
  destruct (index_cases (element_attribute fes) 0) as [[a ->] | ->];
    [| eexists; split; [reflexivity | right; reflexivity]].
  cbn [bind app].
  destruct (index_cases (attributes pmesh) a) as [[e ->] | ->];
    [| eexists; split; [reflexivity | right; reflexivity]].
  cbn [bind app through halt].
  eexists; split; [reflexivity | left; reflexivity].
Qed.

Lemma setGrainData_stops_at_first_element_witness :
  setGrainData Valid empty_QuadratureFunction two_points three_grains 3
    two_elements two_attributes = ([], Stopped NullDereference).
Proof.
  destruct (setGrainData_stops_at_first_element empty_QuadratureFunction
              two_points three_grains 3 two_elements two_attributes)
    as [s [Hrun _]]; [reflexivity |].
  rewrite Hrun; vm_compute in Hrun; exact (eq_sym Hrun).
Defined.

(* ================================================================== *)
(** * Further properties *)

(* ------------------------------------------------------------------ *)
(** ** The validator, in full *)

(** X1.  [checkMaterialArgs] returns 1 exactly when [hyperelastic] is off,
    [cp] is on and one of these holds: [umat] is on, the orientation flags
    are not exactly one, [ngrains < 1].  In every other case, so whenever
    [cp] is off or [hyperelastic] is on, it returns 0. *)
Theorem checkMaterialArgs_decision :
  forall h m c e q u n,
    checkMaterialArgs h m c e q u n =
    if negb h && c && (m || negb (exactly_one e q u) || (n <? 1))
    then 1 else 0.
Proof.
  intros h m c e q u n; unfold checkMaterialArgs, run_checkMaterialArgs.
  destruct (n <? 1); all_flags; reflexivity.
Qed.

(** X2.  What the validator prints agrees with what it returns: the
    Neo-Hookean note exactly when [hyperelastic] is on, one more line
    exactly when the result is 1, and nothing else. *)
Theorem checkMaterialArgs_messages :
  forall h m c e q u n,
    let r := run_checkMaterialArgs h m c e q u n in
    List.length (vr_cout r) =
      Nat.add (if h then 1%nat else 0%nat)
        (if vr_err r =? 1 then 1%nat else 0%nat) /\
    (In "Hyperelastic set to true; using Neohookean model" (vr_cout r) <->
     h = true) /\
    (vr_cout r = [] <-> h = false /\ vr_err r = 0).
Proof.
  intros h m c e q u n r; subst r; unfold run_checkMaterialArgs.
  destruct (n <? 1); all_flags; cbn;
    (split; [reflexivity | split; split]);
    try solve [intros; auto | intros [H | H]; try discriminate H; tauto
              | intros H; discriminate H | intros [H1 H2]; discriminate
              | intros []].
Qed.

(* ------------------------------------------------------------------ *)
(** ** The start of [main], in full *)

(** The start-up, path by path. *)
Lemma main_startup_paths :
  forall w o,
    let r := run_checkMaterialArgs (hyperelastic o) (umat o) (cp o)
               (grain_euler o) (grain_q o) (grain_uniform o) (ngrains o) in
    let validated :=
      (if myid w =? 0 then [PrintOptions] else []) ++
      map Cout (vr_cout r) ++
      (if (vr_err r =? 1) && (myid w =? 0) then [inconsistent_input]
       else []) in
    main_startup w o =
    if negb (args_good w) then
      ((if myid w =? 0 then [PrintUsage] else []) ++ [MPI_Finalize],
       Stopped (Returned 1))
    else if opens w (mesh_file o) then
      (validated ++
       (if cp o && (negb (opens w (grain_file o)) && (myid w =? 0))
        then [Cerr ("Can not open grain file: " ++ grain_file o)%string]
        else []),
       Done (vr_err r, o))
    else if cubit o then
      (validated ++ [Cerr ("Mesh file not found: " ++ mesh_file o)%string],
       Stopped (Aborted "Mesh file not found"))
    else
      (validated ++
       (if myid w =? 0
        then [Cerr ("Can not open mesh file: " ++ mesh_file o)%string]
        else []) ++ [MPI_Finalize],
       Stopped (Returned 2)).
Proof.
  intros w o r validated.
  destruct (args_good w) eqn:Hgood; cbn [negb].
  - destruct (opens w (mesh_file o)) eqn:Hmesh.
    + rewrite main_startup_proceeds by assumption; fold r.
      subst validated; rewrite <- !app_assoc; reflexivity.
    + rewrite main_startup_after_parse by assumption.
      rewrite check_material_done, emit_if_done; fold r.
      unfold open_mesh, Mesh_from_file; rewrite Hmesh.
      subst validated.
      destruct (cubit o); cbn -[String.append run_checkMaterialArgs];
        rewrite ?emit_if_done; cbn -[String.append run_checkMaterialArgs];
        rewrite <- ?app_assoc; reflexivity.
  - unfold main_startup, parse_check; rewrite Hgood; cbn [negb].
    rewrite emit_if_done; reflexivity.
Qed.

(** X3.  Every [return] of the start-up comes after [MPI_Finalize], and its
    code tells the cause: 1 is a command line that did not parse, 2 a mesh
    file that did not open on the stream path.  No other code is
    returned. *)
Theorem main_startup_exit_codes :
  forall w o out code,
    main_startup w o = (out, Stopped (Returned code)) ->
    last out PrintOptions = MPI_Finalize /\
    ((code = 1 /\ args_good w = false) \/
     (code = 2 /\ args_good w = true /\ cubit o = false /\
      opens w (mesh_file o) = false)).
Proof.
  intros w o out code H; rewrite main_startup_paths in H.
  destruct (args_good w); cbn [negb] in H.
  - destruct (opens w (mesh_file o)); [discriminate |].
    destruct (cubit o); [discriminate |].
    inversion H; subst; split; [| right; auto].
    rewrite !app_assoc; apply last_last.
  - inversion H; subst; split; [apply last_last | left; auto].
Qed.

Lemma main_startup_exit_codes_witness :
  last (fst (main_startup rank0_bad_args cp_only)) PrintOptions
    = MPI_Finalize /\
  last (fst (main_startup rank3_no_files cp_only)) PrintOptions
    = MPI_Finalize.
Proof.
  split.
  - apply (main_startup_exit_codes rank0_bad_args cp_only _ 1); reflexivity.
  - apply (main_startup_exit_codes rank3_no_files cp_only _ 2); reflexivity.
Defined.

(** X4.  On the stream path only rank 0 writes usage, options or errors:
    what any other rank sends out is the validator's standard output and,
    before a [return], [MPI_Finalize]. *)
Theorem main_startup_other_ranks_silent :
  forall w o,
    myid w <> 0 ->
    cubit o = false ->
    Forall (fun e => (exists s, e = Cout s) \/ e = MPI_Finalize)
      (fst (main_startup w o)).
Proof.
  intros w o Hrank Hcubit; rewrite main_startup_paths.
  apply Z.eqb_neq in Hrank; rewrite Hrank, Hcubit, !andb_false_r.
  assert (forall l, Forall (fun e => (exists s, e = Cout s) \/ e = MPI_Finalize)
                      (map Cout l)) as Hmap.
  { intros l; apply Forall_forall; intros e He.
    apply in_map_iff in He; destruct He as [s [<- _]]; left; eauto. }
  destruct (args_good w), (opens w (mesh_file o)); cbn [negb fst app];
    rewrite ?app_nil_r.
  - apply Hmap.
  - apply Forall_app; split; [apply Hmap |].
    apply Forall_cons; [right; reflexivity | apply Forall_nil].
  - apply Forall_cons; [right; reflexivity | apply Forall_nil].
  - apply Forall_cons; [right; reflexivity | apply Forall_nil].
Qed.

Lemma main_startup_other_ranks_silent_witness :
  Forall (fun e => (exists s, e = Cout s) \/ e = MPI_Finalize)
    (fst (main_startup rank3_no_files cp_only)).
Proof.
  apply main_startup_other_ranks_silent; [discriminate | reflexivity].
Defined.

(** X5.  Whether the start-up reaches line 288 depends on the command line
    having parsed and the mesh file having opened, and on nothing else:
    neither the validator's result nor the grain file decides it.  When it
    does, [err] is the validator's result and the variables are those
    parsed. *)
Theorem main_startup_proceeds_iff :
  forall w o,
    ((exists out e, main_startup w o = (out, Done e)) <->
     args_good w = true /\ opens w (mesh_file o) = true) /\
    (forall out e,
       main_startup w o = (out, Done e) ->
       e = (checkMaterialArgs (hyperelastic o) (umat o) (cp o)
              (grain_euler o) (grain_q o) (grain_uniform o) (ngrains o), o)).
Proof.
  intros w o; rewrite main_startup_paths; split; [split |].
  - intros (out & e & H).
    destruct (args_good w); cbn [negb] in H; [| discriminate].
    destruct (opens w (mesh_file o)); [auto |].
    destruct (cubit o); discriminate.
  - intros [-> ->]; cbn [negb]; eauto.
  - intros out e H.
    destruct (args_good w); cbn [negb] in H; [| discriminate].
    destruct (opens w (mesh_file o));
      [inversion H; reflexivity | destruct (cubit o); discriminate].
Qed.

(* ------------------------------------------------------------------ *)
(** ** The grain offset *)

(** X6.  The grain offset is 3, 4 or 0, and Euler angles win over
    quaternions, which win over the uniform vector.  It stays 0 only when
    no representation is chosen, or on rank 0 when the uniform vector is
    the choice and is empty; that is also the only case with an error
    message. *)
Theorem grain_offset_values :
  forall w o,
    exists out v,
      grain_offset_of w o = (out, Done v) /\
      (grain_euler o = true -> v = 3) /\
      (grain_euler o = false -> grain_q o = true -> v = 4) /\
      (v = 0 \/ v = 3 \/ v = 4) /\
      (v = 0 <->
       grain_euler o = false /\ grain_q o = false /\
       (grain_uniform o = false \/ (grain_uni_vec o = [] /\ myid w = 0))) /\
      (out <> [] <->
       grain_euler o = false /\ grain_q o = false /\
       grain_uniform o = true /\ grain_uni_vec o = [] /\ myid w = 0).
Proof.
  intros w o; unfold grain_offset_of.
  destruct (grain_euler o), (grain_q o), (grain_uniform o);
    try (eexists; eexists; split; [reflexivity |];
         repeat split; intros; auto; try discriminate; try tauto;
         repeat match goal with H : _ /\ _ |- _ => destruct H end;
         try discriminate; congruence).
  destruct (grain_uni_vec o) as [| a v]; cbn [List.length].
  - destruct (Z.eqb_spec (myid w) 0) as [H0 | H0]; cbn;
      (eexists; eexists; split; [reflexivity |]);
      repeat split; intros; auto; try discriminate; try tauto;
      repeat match goal with
             | H : _ /\ _ |- _ => destruct H
             | H : _ \/ _ |- _ => destruct H
             end; try discriminate; try congruence.
  - replace (Z.of_nat (S (List.length v)) =? 0) with false
      by (symmetry; apply Z.eqb_neq; lia).
    cbn; eexists; eexists; split; [reflexivity |].
    repeat split; intros; auto; try discriminate; try tauto;
      repeat match goal with
             | H : _ /\ _ |- _ => destruct H
             | H : _ \/ _ |- _ => destruct H
             end; try discriminate; try congruence.
Qed.

(** X7.  With the uniform representation chosen and no uniform vector
    given, the ranks disagree: rank 0 reports the error and keeps the offset
    0, every other rank takes the offset 3 without a word. *)
Theorem grain_offset_ranks_disagree :
  forall w w' o,
    grain_euler o = false ->
    grain_q o = false ->
    grain_uniform o = true ->
    grain_uni_vec o = [] ->
    myid w = 0 ->
    myid w' <> 0 ->
    grain_offset_of w o =
      ([Cerr "Must specify a uniform grain orientation vector"], Done 0) /\
    grain_offset_of w' o = ([], Done 3).
Proof.
  intros w w' o He Hq Hu Hv H0 H1; unfold grain_offset_of.
  rewrite He, Hq, Hu, Hv, H0; apply Z.eqb_neq in H1; rewrite H1.
  split; reflexivity.
Qed.

Lemma grain_offset_ranks_disagree_witness :
  grain_offset_of rank0_all_files (cp_uniform []) =
    ([Cerr "Must specify a uniform grain orientation vector"], Done 0) /\
  grain_offset_of rank3_no_files (cp_uniform []) = ([], Done 3).
Proof.
  apply grain_offset_ranks_disagree;
    try reflexivity; discriminate.
Defined.


(* ------------------------------------------------------------------ *)
(** ** One pass of the time loop *)

Lemma marks_after_a_pass :
  forall (l : list Z),
    (2 <= List.length l)%nat ->
    replace_nth 0 1 (replace_nth 1 1 (assign_all l 0)) =
    1 :: 1 :: repeat 0 (List.length l - 2).
Proof.
  intros [| a [| b l]] Hl; cbn in Hl; try lia.
  cbn; rewrite Nat.sub_0_r; do 2 f_equal.
  induction l as [| c l IH]; [reflexivity |].
  cbn; f_equal; apply IH; cbn; lia.
Qed.

(** What a pass that runs to its end has done. *)
Lemma time_step_done_inv :
  forall lib oper o rank ti s out last s',
    time_step lib oper o rank ti s = (out, Done (last, s')) ->
    let t' := advance (dt o) (t_final o) (t s) in
    (2 <= List.length (ess_bdr s))%nat /\
    exists pout g' x',
      ProjectBdrCoefficient lib (fun p y => NonZeroBdrFunc p t' y)
        (replace_nth 1 1 (assign_all (ess_bdr s) 0)) (x_non_zero_ess s) =
        (pout, Done g') /\
      Newton_Mult lib oper [] (GetTrueDofs lib (add g' (x_gf s))) =
        (x', true) /\
      last = reached (dt o) (t_final o) t' /\
      (last = false -> vis_steps o <> 0) /\
      s' = mkLoopState t' x' (Distribute lib x')
             (if last then x_ref s else Distribute lib x')
             (subtract (Distribute lib x') (x_ref s))
             g' (add g' (x_gf s))
             (replace_nth 0 1 (replace_nth 1 1 (assign_all (ess_bdr s) 0))) /\
      out = pout ++
            [NewtonMult (GetTrueDofs lib (add g' (x_gf s)))] ++
            (if (last || (Z.rem ti (vis_steps o) =? 0)) && (rank =? 0)
             then [StepReport ti t'] else []) ++
            [MeshSnapshot rank ti; DeformationSnapshot rank ti].
Proof.
  intros lib oper o rank ti s out last s' H t'.
  unfold time_step in H; fold t' in H.
  apply bind_done in H; destruct H as (o1 & eb1 & o2 & Ha1 & H & ->).
  apply assign_done in Ha1 as Hb1; destruct Hb1 as [Hr1 ->].
  rewrite assign_all_length in Hr1.
  unfold assign in Ha1.
  destruct ((1 <? 0) || (Z.of_nat (List.length (assign_all (ess_bdr s) 0)) <=? 1));
    [discriminate | inversion Ha1; subst o1; clear Ha1].
  change (Z.to_nat 1) with 1%nat in *.
  apply bind_done in H; destruct H as (pout & g' & o3 & Hp & H & ->).
  apply bind_done in H; destruct H as (o4 & eb2 & o5 & Ha2 & H & ->).
  apply assign_done in Ha2 as Hb2; destruct Hb2 as [_ ->].
  unfold assign in Ha2.
  destruct ((0 <? 0) ||
            (Z.of_nat (List.length
                         (replace_nth 1 1 (assign_all (ess_bdr s) 0))) <=? 0));
    [discriminate | inversion Ha2; subst o4; clear Ha2].
  change (Z.to_nat 0) with 0%nat in *.
  apply bind_done in H; destruct H as (o6 & x' & o7 & Hs & H & ->).
  rewrite Solve_run in Hs.
  destruct (Newton_Mult lib oper [] (GetTrueDofs lib (add g' (x_gf s))))
    as [x1 conv] eqn:En; cbn [fst snd] in Hs.
  destruct conv; [| discriminate]; inversion Hs; subst o6 x1; clear Hs.
  apply bind_done in H; destruct H as (o8 & u & o9 & Hz & H & ->).
  set (last0 := reached (dt o) (t_final o) t') in *.
  assert (o8 = [] /\ (last0 = false -> vis_steps o <> 0)) as [-> Hvs].
  { destruct last0; cbn [negb andb] in Hz.
    - inversion Hz; split; [reflexivity | discriminate].
    - destruct (Z.eqb_spec (vis_steps o) 0); [discriminate |].
      inversion Hz; split; [reflexivity | auto]. }
  rewrite emit_if_done in H.
  cbn [bind emit ret app] in H; inversion H; subst; clear H.
  split; [lia |].
  exists pout, g', x'; repeat split; try assumption.
  clearbody last0; destruct last0; reflexivity.
Qed.

(** X10.  After every pass that runs to its end the marker array has 1 for
    the first two boundary attributes and 0 for all others, whatever it held
    before: the nonzero-displacement attribute (the second) and the fixed
    one (the first) are the only essential boundaries. *)
Theorem time_step_marks_two_boundaries :
  forall lib oper o rank ti s out last s',
    time_step lib oper o rank ti s = (out, Done (last, s')) ->
    ess_bdr s' = 1 :: 1 :: repeat 0 (List.length (ess_bdr s) - 2).
Proof.
  intros lib oper o rank ti s out last s' H.
  apply time_step_done_inv in H; cbv zeta in H.
  destruct H as (Hlen & pout & g' & x' & _ & _ & _ & _ & -> & _).
  cbn [ess_bdr]; apply marks_after_a_pass; exact Hlen.
Qed.

Lemma time_step_marks_two_boundaries_witness :
  ess_bdr one_node_after_a_pass = [1; 1].
Proof.
  exact (time_step_marks_two_boundaries converging_library toy_oper
           (hyperelastic_run 1.0 0.2) 0 1 one_node first_pass_output false
           one_node_after_a_pass eq_refl).
Defined.



(** X12.  With [-vs 0] a pass that is not the last one stops on the
    remainder [ti % vis_steps] after the solver has converged and before the
    report and the snapshots; the last pass does not evaluate the remainder
    and runs to its end. *)
Theorem time_step_vis_steps_zero :
  forall lib oper o rank ti s,
    vis_steps o = 0 ->
    (forall f b g,
       exists g', ProjectBdrCoefficient lib f b g = ([], Done g')) ->
    (forall y, snd (Newton_Mult lib oper [] y) = true) ->
    (2 <= List.length (ess_bdr s))%nat ->
    let t' := advance (dt o) (t_final o) (t s) in
    exists out,
      newton_calls out = 1%nat /\
      if reached (dt o) (t_final o) t'
      then exists s',
             time_step lib oper o rank ti s = (out, Done (true, s')) /\
             mesh_files out = [(rank, ti)] /\
             deformation_files out = [(rank, ti)]
      else time_step lib oper o rank ti s = (out, Stopped DivisionByZero) /\
           reported_times out = [] /\
           mesh_files out = [] /\
           deformation_files out = [].
Proof.
  intros lib oper o rank ti s Hvs Hproj Hnewton Hlen t'.
  unfold time_step; fold t'.
  rewrite assign_in_range by (rewrite assign_all_length; lia).
  change (Z.to_nat 1) with 1%nat.
  destruct (Hproj (fun p y => NonZeroBdrFunc p t' y)
              (replace_nth 1 1 (assign_all (ess_bdr s) 0))
              (x_non_zero_ess s)) as [g' Hg].
  cbn [bind ret]; rewrite Hg; cbn [bind ret app].
  rewrite assign_in_range
    by (rewrite replace_nth_length, assign_all_length; lia).
  cbn [bind ret app]; rewrite Solve_run, Hnewton, Hvs.
  destruct (reached (dt o) (t_final o) t'); cbn [negb andb orb Z.eqb].
  - cbn [bind ret app]; rewrite emit_if_done.
    destruct (rank =? 0); cbn [bind ret emit app andb];
      (eexists; split;
       [| eexists; split; [reflexivity | split; reflexivity]]);
      reflexivity.
  - cbn [bind halt ret app].
    eexists; split; [| split; [reflexivity | repeat split]]; reflexivity.
Qed.

Lemma time_step_vis_steps_zero_witness :
  exists out,
    time_step converging_library toy_oper
      (with_vis_steps 0 (hyperelastic_run 1.0 0.2)) 0 1 one_node =
      (out, Stopped DivisionByZero) /\
    newton_calls out = 1%nat /\ mesh_files out = [].
Proof.
  destruct (time_step_vis_steps_zero converging_library toy_oper
              (with_vis_steps 0 (hyperelastic_run 1.0 0.2)) 0 1 one_node)
    as (out & Hn & H).
  - reflexivity.
  - intros f b g; exists g; reflexivity.
  - reflexivity.
  - cbn; lia.
  - change (reached (dt (with_vis_steps 0 (hyperelastic_run 1.0 0.2)))
              (t_final (with_vis_steps 0 (hyperelastic_run 1.0 0.2)))
              (advance (dt (with_vis_steps 0 (hyperelastic_run 1.0 0.2)))
                 (t_final (with_vis_steps 0 (hyperelastic_run 1.0 0.2)))
                 (t one_node))) with false in H.
    destruct H as (Hrun & _ & Hm & _).
    exists out; repeat split; assumption.
Defined.

(* ------------------------------------------------------------------ *)
(** ** The whole loop *)

(** X13.  With the library calls returning, the Newton solver converging
    and [vis_steps] not 0, the loop ends exactly when its schedule of times
    does: it is still running after [fuel] passes if and only if the exit
    test has not held by then, and when the test first holds in the [n]-th
    pass the loop has called the solver [n] times, has written the
    snapshots of the steps [ti, ..., ti + n - 1] and stands at the last time
    of the schedule. *)
Theorem time_loop_ends_with_schedule :
  forall lib oper o rank fuel ti s,
    (forall f b g,
       exists g', ProjectBdrCoefficient lib f b g = ([], Done g')) ->
    (forall y, snd (Newton_Mult lib oper [] y) = true) ->
    vis_steps o <> 0 ->
    (2 <= List.length (ess_bdr s))%nat ->
    (time_loop fuel lib oper o rank ti s = None <->
     schedule fuel (dt o) (t_final o) (t s) = None) /\
    (forall times,
       schedule fuel (dt o) (t_final o) (t s) = Some times ->
       exists out s',
         time_loop fuel lib oper o rank ti s = Some (out, Done s') /\
         t s' = last times (t s) /\
         newton_calls out = List.length times /\
         mesh_files out =
           map (pair rank) (count_from ti (List.length times)) /\
         deformation_files out =
           map (pair rank) (count_from ti (List.length times))).
Proof.
  intros lib oper o rank fuel ti s Hproj Hnewton Hvs Hlen; split; [split |].
  - intros Hnone.
    destruct (schedule fuel (dt o) (t_final o) (t s)) as [times |] eqn:E;
      [| reflexivity].
    destruct (time_loop_follows_schedule lib oper o rank Hproj Hnewton Hvs
                fuel ti s times E Hlen) as (out & s' & Hrun & _).
    rewrite Hrun in Hnone; discriminate.
  - intros Hnone.
    apply time_loop_waits_for_schedule; assumption.
  - intros times E.
    destruct (time_loop_follows_schedule lib oper o rank Hproj Hnewton Hvs
                fuel ti s times E Hlen)
      as (out & s' & Hrun & Ht & Hn & Hm & Hd & _).
    exists out, s'; repeat split; assumption.
Qed.

Lemma time_loop_ends_with_schedule_witness :
  exists out s',
    time_loop 3 converging_library toy_oper (hyperelastic_run 1.0 0.5) 0 1
      one_node = Some (out, Done s') /\
    t s' = 1.0%float /\
    mesh_files out = [(0, 1); (0, 2)].
Proof.
  destruct (time_loop_ends_with_schedule converging_library toy_oper
              (hyperelastic_run 1.0 0.5) 0 3 1 one_node) as [_ H].
  - intros f b g; exists g; reflexivity.
  - reflexivity.
  - discriminate.
  - cbn; lia.
  - destruct (H [0.5; 1.0]%float eq_refl)
      as (out & s' & Hrun & Ht & _ & Hm & _).
    exists out, s'; repeat split; assumption.
Defined.
(* ------------------------------------------------------------------ *)
(** ** A time that does not move *)

(** X14.  When a pass leaves the time where it was, that is when
    [t + min(dt, t_final - t)] is [t] in double arithmetic, as with a step
    too small for the time reached, and the exit test fails there, the pass
    runs to its end with one call of the solver, is not the last, and
    leaves the state of the schedule as it found it: the loop never ends,
    however many passes it is given. *)
Theorem time_loop_stalls :
  forall lib oper o rank s,
    (forall f b g,
       exists g', ProjectBdrCoefficient lib f b g = ([], Done g')) ->
    (forall y, snd (Newton_Mult lib oper [] y) = true) ->
    vis_steps o <> 0 ->
    (2 <= List.length (ess_bdr s))%nat ->
    advance (dt o) (t_final o) (t s) = t s ->
    reached (dt o) (t_final o) (t s) = false ->
    (forall ti,
       exists out s',
         time_step lib oper o rank ti s = (out, Done (false, s')) /\
         t s' = t s /\
         newton_calls out = 1%nat) /\
    (forall fuel ti, time_loop fuel lib oper o rank ti s = None).
Proof.
  intros lib oper o rank s Hproj Hnewton Hvs Hlen Hadv Hreached; split.
  - intros ti.
    destruct (time_step_runs lib oper o rank Hproj Hnewton Hvs ti s Hlen)
      as (out & s' & Hstep & Ht & _ & Hn & _).
    cbv zeta in Hstep, Ht; rewrite Hadv in Hstep, Ht.
    rewrite Hreached in Hstep.
    exists out, s'; repeat split; assumption.
  - intros fuel ti.
    apply time_loop_waits_for_schedule; try assumption.
    apply schedule_stalls; assumption.
Qed.

Lemma time_loop_stalls_witness :
  time_loop 1000 converging_library toy_oper (hyperelastic_run 2.0 1e-20) 0
    1 one_node_at_one = None.
Proof.
  apply (time_loop_stalls converging_library toy_oper
           (hyperelastic_run 2.0 1e-20) 0 one_node_at_one).
  - intros f b g; exists g; reflexivity.
  - reflexivity.
  - discriminate.
  - cbn; lia.
  - reflexivity.
  - reflexivity.
Defined.


(* ------------------------------------------------------------------ *)
(** ** The loops of the grain loader *)

Lemma for_each_preserves :
  forall {A S} (R : S -> S -> Prop) (body : A -> S -> prog S) (l : list A),
    (forall s, R s s) ->
    (forall s1 s2 s3, R s1 s2 -> R s2 s3 -> R s1 s3) ->
    (forall a s out s', In a l -> body a s = (out, Done s') -> R s s') ->
    forall s out s', for_each l body s = (out, Done s') -> R s s'.
Proof.
  intros A S R body l Hrefl Htrans; induction l as [| a l IH];
    intros Hbody s out s' H; cbn [for_each] in H.
  - inversion H; subst; apply Hrefl.
  - apply bind_done in H; destruct H as (o1 & s1 & o2 & H1 & H2 & _).
    apply Htrans with s1.
    + apply (Hbody a s o1 s1); [left; reflexivity | exact H1].
    + apply (IH (fun b u o u' Hin => Hbody b u o u' (or_intror Hin))
               s1 o2 s' H2).
Qed.

Lemma in_range :
  forall n k, In k (range n) -> 0 <= k < n.
Proof.
  intros n k H; unfold range in H.
  apply in_map_iff in H; destruct H as (m & <- & Hm).
  apply in_seq in Hm; lia.
Qed.

Lemma same_outside_refl :
  forall lo hi qf, same_outside lo hi qf qf.
Proof. intros; repeat split. Qed.

Lemma same_outside_trans :
  forall lo hi q1 q2 q3,
    same_outside lo hi q1 q2 -> same_outside lo hi q2 q3 ->
    same_outside lo hi q1 q3.
Proof.
  intros lo hi q1 q2 q3 (L1 & S1 & V1 & N1) (L2 & S2 & V2 & N2).
  repeat split; try congruence.
  intros i Hi; rewrite (N2 i Hi); apply N1; exact Hi.
Qed.

Lemma copy_component_same_outside :
  forall grain_data grain_offset elem_atr base npoints j k qf out qf',
    0 <= grain_offset -> 0 <= base ->
    0 <= j < npoints -> 0 <= k < grain_offset ->
    copy_component grain_data grain_offset elem_atr base j k qf =
      (out, Done qf') ->
    same_outside (Z.to_nat base) (Z.to_nat (base + grain_offset * npoints))
      qf qf'.
Proof.
  intros gd go e base n j k qf out qf' Hgo Hbase Hj Hk H.
  unfold copy_component in H; apply bind_done in H.
  destruct H as (o1 & v & o2 & _ & Hstore & _).
  unfold store in Hstore; apply bind_done in Hstore.
  destruct Hstore as (o3 & d & o4 & Hw & Hret & _).
  apply assign_done in Hw; destruct Hw as [Hrange ->].
  inversion Hret; subst qf'; unfold same_outside; cbn [data qspace vdim].
  repeat split; [apply replace_nth_length |].
  intros i Hi; rewrite nth_error_replace_nth by lia.
  destruct (Nat.eqb_spec i (Z.to_nat (base + (k + go * j)))) as [-> | _];
    [| reflexivity].
  exfalso; destruct Hi as [Hi | Hi]; nia.
Qed.

Lemma copy_point_same_outside :
  forall grain_data grain_offset elem_atr base npoints j qf out qf',
    0 <= grain_offset -> 0 <= base ->
    0 <= j < npoints ->
    for_each (range grain_offset)
      (copy_component grain_data grain_offset elem_atr base j) qf =
      (out, Done qf') ->
    same_outside (Z.to_nat base) (Z.to_nat (base + grain_offset * npoints))
      qf qf'.
Proof.
  intros gd go e base n j qf out qf' Hgo Hbase Hj.
  apply for_each_preserves;
    [apply same_outside_refl | apply same_outside_trans |].
  intros k u o2 u' Hk Hc; apply in_range in Hk.
  eapply copy_component_same_outside; eassumption.
Qed.

(** X15.  The loops of lines 855-868 write inside the block of the element
    only: when they run to their end, the entries before [base] and from
    [base + grain_offset * npoints] on are what they were, and the size of
    the data, the space and [vdim] are unchanged. *)
Theorem fill_element_frame :
  forall grain_data grain_offset elem_atr npoints base qf out qf',
    0 <= grain_offset ->
    0 <= base ->
    fill_element grain_data grain_offset elem_atr npoints base qf =
      (out, Done qf') ->
    List.length (data qf') = List.length (data qf) /\
    qspace qf' = qspace qf /\
    vdim qf' = vdim qf /\
    forall i,
      (i < Z.to_nat base \/
       Z.to_nat (base + grain_offset * npoints) <= i)%nat ->
      nth_error (data qf') i = nth_error (data qf) i.
Proof.
  intros gd go e n base qf out qf' Hgo Hbase H.
  change (same_outside (Z.to_nat base) (Z.to_nat (base + go * n)) qf qf').
  unfold fill_element in H; revert H.
  apply for_each_preserves;
    [apply same_outside_refl | apply same_outside_trans |].
  intros j s o1 s1 Hj; apply in_range in Hj.
  apply copy_point_same_outside; assumption.
Qed.

Lemma fill_element_frame_witness :
  nth_error
    [Some 0.1; Some 0.2; Some 0.3; Some 9; Some 9; Some 9]%float 4 =
  nth_error (data two_blocks) 4.
Proof.
  refine (proj2 (proj2 (proj2
            (fill_element_frame three_grains 3 0 1 0 two_blocks []
               {| qspace := Some two_points; vdim := 3;
                  data := [Some 0.1; Some 0.2; Some 0.3;
                           Some 9; Some 9; Some 9]%float |}
               _ _ eq_refl))) 4%nat _); cbn; lia.
Defined.

Lemma for_each_runs :
  forall {A S} (I : S -> Prop) (body : A -> S -> prog S) (l : list A),
    (forall a s, In a l -> I s -> exists s', body a s = ([], Done s') /\ I s') ->
    forall s, I s -> exists s', for_each l body s = ([], Done s') /\ I s'.
Proof.
  intros A S I body l; induction l as [| a l IH]; intros Hbody s Hs.
  - exists s; split; [reflexivity | exact Hs].
  - destruct (Hbody a s (or_introl eq_refl) Hs) as (s1 & H1 & Hs1).
    destruct (IH (fun b u Hin => Hbody b u (or_intror Hin)) s1 Hs1)
      as (s' & H' & Hs').
    exists s'; split; [| exact Hs'].
    cbn [for_each]; rewrite H1; cbn [bind]; rewrite H'; reflexivity.
Qed.

(** With the grain inside the table and the block inside the data, every
    read and every write of line 866 is inside its array, and the loops run
    to their end without a word. *)
Lemma fill_element_runs :
  forall grain_data grain_offset elem_atr npoints base qf,
    0 <= grain_offset ->
    0 <= elem_atr ->
    0 <= base ->
    grain_offset * (elem_atr + 1) <= Z.of_nat (List.length grain_data) ->
    base + grain_offset * npoints <= Z.of_nat (List.length (data qf)) ->
    exists qf',
      fill_element grain_data grain_offset elem_atr npoints base qf =
        ([], Done qf').
Proof.
  intros gd go e n base qf Hgo He Hbase Htable Hdata; unfold fill_element.
  destruct (for_each_runs
              (fun s => List.length (data s) = List.length (data qf))
              (fun j s =>
                 for_each (range go) (copy_component gd go e base j) s)
              (range n)) with (s := qf) as (qf' & Hrun & _);
    [| reflexivity | exists qf'; exact Hrun].
  intros j s Hj Hs; apply in_range in Hj.
  apply for_each_runs; [| exact Hs].
  intros k u Hk Hu; apply in_range in Hk.
  unfold copy_component, index, store.
  destruct (Z.ltb_spec (k + go * e) 0); [nia |].
  destruct (nth_error gd (Z.to_nat (k + go * e))) as [v |] eqn:Ev;
    [| apply nth_error_None in Ev; nia].
  cbn [bind ret app].
  rewrite assign_in_range by (rewrite Hu; nia).
  eexists; split; [reflexivity |].
  cbn [data]; rewrite replace_nth_length; exact Hu.
Qed.

Lemma grain_slice_length :
  forall grain_data grain_offset elem_atr,
    0 <= grain_offset ->
    0 <= elem_atr ->
    grain_offset * (elem_atr + 1) <= Z.of_nat (List.length grain_data) ->
    List.length (grain_slice grain_data grain_offset elem_atr) =
      Z.to_nat grain_offset.
Proof.
  intros gd go e Hgo He Htable; unfold grain_slice.
  rewrite length_map, length_firstn, length_skipn; nia.
Qed.

(** X16.  When the grain of the element lies inside the orientation table
    and the block of the element inside the data, so that every access of
    line 866 is inside its array, the loops of lines 855-868 run to their
    end and print nothing; every quadrature point of the element then holds
    the [grain_offset] values of its grain, and the size of the data is
    what it was. *)
Theorem fill_element_completes :
  forall grain_data grain_offset elem_atr npoints base qf,
    0 <= grain_offset ->
    0 <= elem_atr ->
    0 <= base ->
    grain_offset * (elem_atr + 1) <= Z.of_nat (List.length grain_data) ->
    base + grain_offset * npoints <= Z.of_nat (List.length (data qf)) ->
    exists qf',
      fill_element grain_data grain_offset elem_atr npoints base qf =
        ([], Done qf') /\
      List.length (data qf') = List.length (data qf) /\
      List.length (grain_slice grain_data grain_offset elem_atr) =
        Z.to_nat grain_offset /\
      forall j,
        0 <= j < npoints ->
        point_slice qf' grain_offset base j =
        grain_slice grain_data grain_offset elem_atr.
Proof.
  intros gd go e n base qf Hgo He Hbase Htable Hdata.
  destruct (fill_element_runs gd go e n base qf Hgo He Hbase Htable Hdata)
    as [qf' Hrun].
  exists qf'; split; [exact Hrun |].
  split; [| split; [apply grain_slice_length; assumption |]].
  - revert Hrun; unfold fill_element.
    apply (for_each_preserves
             (fun s s' => List.length (data s') = List.length (data s)));
      [reflexivity | intros s1 s2 s3 H1 H2; congruence |].
    intros j s o1 s1 Hj Hpoint; apply in_range in Hj.
    apply (copy_point_same_outside gd go e base n j s o1 s1);
      assumption.
  - intros j Hj.
    apply (fill_element_assigns_grain gd go e base Hgo He Hbase n qf []);
      assumption.
Qed.

Lemma fill_element_completes_witness :
  exists qf',
    fill_element three_grains 3 2 1 3 two_blocks = ([], Done qf') /\
    point_slice qf' 3 3 0 = [Some 2.1; Some 2.2; Some 2.3]%float.
Proof.
  destruct (fill_element_completes three_grains 3 2 1 3 two_blocks)
    as (qf' & Hrun & _ & _ & Hslice); try (cbn; lia).
  exists qf'; split; [exact Hrun |].
  rewrite (Hslice 0) by lia; reflexivity.
Defined.

(** X17.  Elements with the same attribute entry get the same orientation:
    when the loops run to their end for two elements with the same
    [elem_atr], every quadrature point of the one holds the same values as
    every quadrature point of the other. *)
Theorem same_attribute_same_orientation :
  forall grain_data grain_offset elem_atr
         npoints1 base1 qf1 out1 qf1' npoints2 base2 qf2 out2 qf2',
    0 <= grain_offset ->
    0 <= elem_atr ->
    0 <= base1 ->
    0 <= base2 ->
    fill_element grain_data grain_offset elem_atr npoints1 base1 qf1 =
      (out1, Done qf1') ->
    fill_element grain_data grain_offset elem_atr npoints2 base2 qf2 =
      (out2, Done qf2') ->
    forall j1 j2,
      0 <= j1 < npoints1 ->
      0 <= j2 < npoints2 ->
      point_slice qf1' grain_offset base1 j1 =
      point_slice qf2' grain_offset base2 j2.
Proof.
  intros gd go e n1 b1 q1 o1 q1' n2 b2 q2 o2 q2' Hgo He Hb1 Hb2 H1 H2
         j1 j2 Hj1 Hj2.
  rewrite (fill_element_assigns_grain gd go e b1 Hgo He Hb1 n1 q1 o1 q1' H1
             j1 Hj1).
  rewrite (fill_element_assigns_grain gd go e b2 Hgo He Hb2 n2 q2 o2 q2' H2
             j2 Hj2).
  reflexivity.
Qed.

Lemma same_attribute_same_orientation_witness :
  point_slice
    {| qspace := Some two_points; vdim := 3;
       data := [Some 1.1; Some 1.2; Some 1.3; Some 9; Some 9; Some 9]%float |}
    3 0 0 =
  point_slice
    {| qspace := Some two_points; vdim := 3;
       data := [None; None; None; Some 1.1; Some 1.2; Some 1.3]%float |}
    3 3 0.
Proof.
  apply (same_attribute_same_orientation three_grains 3 1
           1 0 two_blocks [] _ 1 3 two_blocks [] _);
    try reflexivity; lia.
Defined.

(** X18.  With the uniform representation the orientation table is the
    vector given with [-guv], whatever the number of grains and whatever
    the grain file holds.  With three values it has room for one grain: the
    first value of any grain with index 1 or more lies at or behind its
    end, and an element with attribute entry 0 whose block lies inside the
    data gets the [-guv] vector in every quadrature point. *)
Theorem uniform_table_holds_one_grain :
  forall load o npoints base qf,
    grain_uniform o = true ->
    List.length (grain_uni_vec o) = 3%nat ->
    0 <= base ->
    base + 3 * npoints <= Z.of_nat (List.length (data qf)) ->
    grain_table load 3 o = grain_uni_vec o /\
    (forall elem_atr,
       1 <= elem_atr ->
       Z.of_nat (List.length (grain_table load 3 o)) <= 0 + 3 * elem_atr) /\
    exists qf',
      fill_element (grain_table load 3 o) 3 0 npoints base qf =
        ([], Done qf') /\
      forall j,
        0 <= j < npoints ->
        point_slice qf' 3 base j = map Some (grain_uni_vec o).
Proof.
  intros load o n base qf Hu Hlen Hbase Hdata.
  assert (grain_table load 3 o = grain_uni_vec o) as Htable
      by (unfold grain_table; rewrite Hu; reflexivity).
  rewrite Htable; split; [reflexivity |].
  split; [intros e He; rewrite Hlen; lia |].
  destruct (fill_element_runs (grain_uni_vec o) 3 0 n base qf)
    as [qf' Hrun]; try lia.
  exists qf'; split; [exact Hrun |].
  intros j Hj.
  rewrite (fill_element_assigns_grain (grain_uni_vec o) 3 0 base
             ltac:(lia) ltac:(lia) Hbase n qf [] qf' Hrun j Hj).
  unfold grain_slice; cbn [Z.mul Z.to_nat skipn].
  rewrite firstn_all2 by (rewrite Hlen; cbn; lia); reflexivity.
Qed.

Lemma uniform_table_holds_one_grain_witness :
  exists qf',
    fill_element
      (grain_table (fun _ => []) 3 (cp_uniform [0.1; 0.2; 0.3]%float))
      3 0 1 0 two_blocks = ([], Done qf') /\
    point_slice qf' 3 0 0 = [Some 0.1; Some 0.2; Some 0.3]%float.
Proof.
  destruct (uniform_table_holds_one_grain (fun _ => [])
              (cp_uniform [0.1; 0.2; 0.3]%float) 1 0 two_blocks)
    as (_ & _ & qf' & Hrun & Hslice); try reflexivity; try (cbn; lia).
  exists qf'; split; [exact Hrun |].
  apply (Hslice 0); lia.
Defined.

(* ------------------------------------------------------------------ *)
(** ** The members of the operator and its destructor *)

(** X19.  The statements of the constructor from line 585 on always build
    an operator, but they give it a model only when [umat] or
    [hyperelastic] is set.  With one of them set the destructor deletes the
    solver, the preconditioner when there is one, and the model; with
    neither, as in a run without [-umat] and [-hyperel], the form has no
    domain integrator and the destructor applies [delete] to a [model] that
    was never assigned.  There is no preconditioner exactly when the solver
    is SuperLU, which takes [gmres] off and [slu] on. *)
Theorem dtor_after_members :
  forall rel_tol abs_tol iter gmres slu hyperelastic umat,
    exists op,
      members_from_585 rel_tol abs_tol iter gmres slu hyperelastic umat =
        ([], Done op) /\
      (J_prec op = None <-> J_solver op = SuperLUSolver) /\
      (J_solver op = SuperLUSolver <-> gmres = false /\ slu = true) /\
      (umat || hyperelastic = true ->
       exists m,
         model op = Some m /\
         List.length (dnfi (form op)) = 1%nat /\
         NonlinearMechOperator_dtor op =
           ([], Done ([OwnedSolver (J_solver op)] ++
                      match J_prec op with
                      | Some p => [OwnedPreconditioner p]
                      | None => []
                      end ++ [OwnedModel m]))) /\
      (umat || hyperelastic = false ->
       model op = None /\ dnfi (form op) = [] /\
       NonlinearMechOperator_dtor op = ([], Stopped WildDereference)).
Proof.
  intros rel_tol abs_tol iter gmres slu hyperelastic umat.
  destruct umat, hyperelastic, gmres, slu;
    (eexists; split; [reflexivity |]); cbn;
    repeat split; intros; try discriminate; try tauto;
    try (eexists; repeat split; reflexivity);
    repeat match goal with H : _ /\ _ |- _ => destruct H end;
    discriminate.
Qed.

Lemma dtor_after_members_witness :
  exists op,
    members_from_585 1e-12 1e-12 500 true false false false = ([], Done op) /\
    NonlinearMechOperator_dtor op = ([], Stopped WildDereference).
Proof.
  destruct (dtor_after_members 1e-12 1e-12 500 true false false false)
    as (op & Hop & _ & _ & _ & Hnone).
  exists op; split; [exact Hop |].
  apply Hnone; reflexivity.
Defined.
